(** * Echo-timing state machine of the ultrasonic range finder

    Shallow embedding of the firmware in [src/unnamed/part_001] (the
    [system_state_t g_state] variant; [src/unnamed/part_000] is the same
    program with the fields as separate globals).  The foreground loop of
    [main] is a small-step machine with one program point per statement
    group, and the two interrupt handlers ([echo_callback],
    [timeout_callback]) are steps that may be interleaved anywhere between
    foreground steps, as the hardware does.  Every observable side effect
    (GPIO writes, sleeps, timer requests, console output) is recorded as an
    [effect]. *)

From Stdlib Require Import ZArith List String Ascii Bool Lia QArith Lqa Qabs Qpower.
Import ListNotations.
Open Scope Z_scope.

(** ** Constants ([#define]s of part_001) *)

Definition TRIGGER_PIN : Z := 28.
Definition ECHO_PIN : Z := 27.
Definition MEASUREMENT_TIMEOUT_US : Z := 30000.
Definition CMD_BUFFER_SIZE : Z := 64.
Definition GPIO_IRQ_EDGE_RISE : Z := 8.
Definition GPIO_IRQ_EDGE_FALL : Z := 4.

(** ** Data model *)

Inductive measurement_state_t :=
| STATE_IDLE
| STATE_WAITING_FOR_ECHO
| STATE_MEASUREMENT_COMPLETE
| STATE_MEASUREMENT_ERROR.

Definition state_eqb (a b : measurement_state_t) : bool :=
  match a, b with
  | STATE_IDLE, STATE_IDLE
  | STATE_WAITING_FOR_ECHO, STATE_WAITING_FOR_ECHO
  | STATE_MEASUREMENT_COMPLETE, STATE_MEASUREMENT_COMPLETE
  | STATE_MEASUREMENT_ERROR, STATE_MEASUREMENT_ERROR => true
  | _, _ => false
  end.

(** [absolute_time_t] values are microseconds since boot (uint64), kept as
    [Z]; [alarm_id_t] is an [int32], kept as [Z]; [char] as its code. *)
Record system_state_t := mk_system_state {
  current_state : measurement_state_t;
  echo_start_time : Z;
  echo_end_time : Z;
  measurement_alarm_id : Z;
  system_running : bool;
  cmd_buffer : list Z;
  cmd_index : Z
}.

Definition set_current_state (s : measurement_state_t) (g : system_state_t) :=
  mk_system_state s (echo_start_time g) (echo_end_time g)
    (measurement_alarm_id g) (system_running g) (cmd_buffer g) (cmd_index g).
Definition set_echo_start_time (t : Z) (g : system_state_t) :=
  mk_system_state (current_state g) t (echo_end_time g)
    (measurement_alarm_id g) (system_running g) (cmd_buffer g) (cmd_index g).
Definition set_echo_end_time (t : Z) (g : system_state_t) :=
  mk_system_state (current_state g) (echo_start_time g) t
    (measurement_alarm_id g) (system_running g) (cmd_buffer g) (cmd_index g).
Definition set_measurement_alarm_id (id : Z) (g : system_state_t) :=
  mk_system_state (current_state g) (echo_start_time g) (echo_end_time g)
    id (system_running g) (cmd_buffer g) (cmd_index g).
Definition set_system_running (b : bool) (g : system_state_t) :=
  mk_system_state (current_state g) (echo_start_time g) (echo_end_time g)
    (measurement_alarm_id g) b (cmd_buffer g) (cmd_index g).
Definition set_cmd_buffer (buf : list Z) (g : system_state_t) :=
  mk_system_state (current_state g) (echo_start_time g) (echo_end_time g)
    (measurement_alarm_id g) (system_running g) buf (cmd_index g).
Definition set_cmd_index (i : Z) (g : system_state_t) :=
  mk_system_state (current_state g) (echo_start_time g) (echo_end_time g)
    (measurement_alarm_id g) (system_running g) (cmd_buffer g) i.

(** The static initialiser of [g_state]: omitted fields are zero. *)
Definition g_state_init : system_state_t :=
  mk_system_state STATE_IDLE 0 0 0 false
    (repeat 0 (Z.to_nat CMD_BUFFER_SIZE)) 0.

(** Observable side effects. [EReport] is the [printf] of the measurement
    result (lines 191 and 195), [EPrint] every other [printf]. *)
Inductive effect :=
| EGpioPut (pin level : Z)
| ESleepUs (us : Z)
| ESleepMs (ms : Z)
| EAddAlarm (delay_us : Z)
| ECancelAlarm (id : Z)
| EPutchar (c : Z)
| EPrint (s : string)
| EReport (s : string).

(** ** Interrupt handlers *)

(** [timeout_callback]: the alarm returns 0, so it is never rescheduled. *)
Definition timeout_callback (g : system_state_t) : system_state_t :=
  if state_eqb (current_state g) STATE_WAITING_FOR_ECHO
  then set_current_state STATE_MEASUREMENT_ERROR g
  else g.

(** [echo_callback gpio events]; [t_rise] and [t_fall] are the values the
    two calls of [get_absolute_time] return. *)
Definition echo_callback (gpio events t_rise t_fall : Z) (g : system_state_t)
  : system_state_t * list effect :=
  if gpio =? ECHO_PIN then
    let g1 := if Z.land events GPIO_IRQ_EDGE_RISE =? 0 then g
              else set_echo_start_time t_rise g in
    if Z.land events GPIO_IRQ_EDGE_FALL =? 0 then (g1, [])
    else
      let g2 := set_echo_end_time t_fall g1 in
      if state_eqb (current_state g2) STATE_WAITING_FOR_ECHO
      then (set_current_state STATE_MEASUREMENT_COMPLETE g2,
            [ECancelAlarm (measurement_alarm_id g2)])
      else (g2, [])
  else (g, []).

(** [send_trigger_pulse] *)
Definition send_trigger_pulse : list effect :=
  [EGpioPut TRIGGER_PIN 1; ESleepUs 10; EGpioPut TRIGGER_PIN 0].

(** ** Command line processing (lines 136-169) *)

Fixpoint list_set (l : list Z) (n : nat) (v : Z) : list Z :=
  match l, n with
  | [], _ => []
  | _ :: t, O => v :: t
  | x :: t, S n' => x :: list_set t n' v
  end.

(** A store [buf[i] = v] into the 64-byte array; [None] is an access out
    of bounds (undefined behaviour in C). *)
Definition store (buf : list Z) (i v : Z) : option (list Z) :=
  if (0 <=? i) && (i <? Z.of_nat (List.length buf))
  then Some (list_set buf (Z.to_nat i) v) else None.

(** The characters [strcmp] reads: up to the first NUL. *)
Fixpoint c_string (buf : list Z) : list Z :=
  match buf with
  | [] => []
  | x :: t => if x =? 0 then [] else x :: c_string t
  end.

Definition codes (s : string) : list Z :=
  map (fun a => Z.of_nat (nat_of_ascii a)) (list_ascii_of_string s).

Definition string_of_codes (l : list Z) : string :=
  string_of_list_ascii (map (fun z => ascii_of_nat (Z.to_nat z)) l).

Fixpoint list_Z_eqb (l1 l2 : list Z) : bool :=
  match l1, l2 with
  | [], [] => true
  | x :: t1, y :: t2 => (x =? y) && list_Z_eqb t1 t2
  | _, _ => false
  end.

Definition strcmp_eq (buf : list Z) (lit : string) : bool :=
  list_Z_eqb (c_string buf) (codes lit).

(** One character [c] returned by [getchar_timeout_us]; the boolean is
    [true] when the loop body ends with [continue]. *)
Definition process_char (c : Z) (g : system_state_t)
  : option (system_state_t * list effect * bool) :=
  let echo := [EPutchar c] in
  if (c =? 13) || (c =? 10) then
    if cmd_index g =? 0 then Some (g, echo, true)
    else
      match store (cmd_buffer g) (cmd_index g) 0 with
      | None => None
      | Some buf =>
          let g1 := set_cmd_buffer buf g in
          let '(g2, msg) :=
            if strcmp_eq buf "start" then
              (set_system_running true g1, EPrint "
Medições iniciadas.
")
            else if strcmp_eq buf "stop" then
              (set_system_running false g1, EPrint "
Medições paradas.
")
            else
              (g1, EPrint ("
Comando desconhecido: " ++ string_of_codes (c_string buf) ++ "
")) in
          Some (set_cmd_buffer (repeat 0 (Z.to_nat CMD_BUFFER_SIZE))
                  (set_cmd_index 0 g2), echo ++ [msg], false)
      end
  else if cmd_index g <? CMD_BUFFER_SIZE - 1 then
    match store (cmd_buffer g) (cmd_index g) c with
    | None => None
    | Some buf =>
        Some (set_cmd_index (cmd_index g + 1) (set_cmd_buffer buf g), echo, false)
    end
  else Some (g, echo, false).

(** ** Result computation (lines 189-191) *)

(** [absolute_time_diff_us(from, to)] of the Pico SDK:
    [(int64_t)(to_us_since_boot(to) - to_us_since_boot(from))], the uint64
    difference reinterpreted as a signed 64-bit value. *)
Definition wrap_s64 (x : Z) : Z :=
  let y := x mod 2 ^ 64 in if y >=? 2 ^ 63 then y - 2 ^ 64 else y.

Definition absolute_time_diff_us (from to : Z) : Z := wrap_s64 (to - from).

(** Binary32 values as dyadic rationals [f_m * 2 ^ f_e].  Every value that
    the distance computation produces has an exponent far above the
    subnormal range and a magnitude far below [2 ^ 128], so IEEE rounding
    to nearest-even is rounding the integer significand to 24 bits. *)
Record f32 := mk_f32 { f_m : Z; f_e : Z }.

(** Round [a / b] (for [a >= 0], [b > 0]) to nearest, ties to even. *)
Definition rne_div (a b : Z) : Z :=
  let q := a / b in
  let r := a mod b in
  if b <? 2 * r then q + 1
  else if 2 * r <? b then q
  else if Z.odd q then q + 1 else q.

Definition round_f32 (x : f32) : f32 :=
  let a := Z.abs (f_m x) in
  if a <? 2 ^ 24 then x
  else
    let k := Z.log2 a - 23 in
    mk_f32 (Z.sgn (f_m x) * rne_div a (2 ^ k)) (f_e x + k).

(** The literal [0.0343f]: 0.0343 lies in [[2^-5, 2^-4)], so its
    significand is taken at exponent [-5 - 23]. *)
Definition SPEED_OF_SOUND_F32 : f32 :=
  mk_f32 (rne_div (343 * 2 ^ 28) 10000) (-28).

(** [(float)] of an [int64_t]. *)
Definition f32_of_int (n : Z) : f32 := round_f32 (mk_f32 n 0).

Definition f32_mul (x y : f32) : f32 :=
  round_f32 (mk_f32 (f_m x * f_m y) (f_e x + f_e y)).

(** Division by [2.0f]. *)
Definition f32_half (x : f32) : f32 := round_f32 (mk_f32 (f_m x) (f_e x - 1)).

(** [float distance = (duration_us * 0.0343f) / 2.0f;] *)
Definition distance_f32 (duration_us : Z) : f32 :=
  f32_half (f32_mul (f32_of_int duration_us) SPEED_OF_SOUND_F32).

Definition Q_of_f32 (x : f32) : Q :=
  if 0 <=? f_e x then inject_Z (f_m x * 2 ^ f_e x) else f_m x # Z.to_pos (2 ^ (- f_e x)).

(** Decimal digits of a non-negative integer; 40 digits cover every value
    printed here (all below [2 ^ 64]). *)
Fixpoint dec_aux (fuel : nat) (n : Z) (acc : string) : string :=
  match fuel with
  | O => acc
  | S f =>
      let acc' := String (ascii_of_nat (48 + Z.to_nat (n mod 10))) acc in
      if n <? 10 then acc' else dec_aux f (n / 10) acc'
  end.

Definition dec (n : Z) : string := dec_aux 40 n EmptyString.

(** [%02d] *)
Definition fmt02 (n : Z) : string :=
  if n <? 0 then "-" ++ dec (- n)
  else if n <? 10 then "0" ++ dec n else dec n.

(** The integer that [%.0f] prints for a value: nearest, ties to even. *)
Definition round_0f (x : f32) : Z :=
  let a := Z.abs (f_m x) in
  Z.sgn (f_m x) *
  (if 0 <=? f_e x then a * 2 ^ f_e x else rne_div a (2 ^ (- f_e x))).

(** [%.0f]: the sign of the value, then the rounded magnitude. *)
Definition fmt_0f (x : f32) : string :=
  (if f_m x <? 0 then "-" else "") ++ dec (Z.abs (round_0f x)).

Definition time_str (h mi s : Z) : string :=
  fmt02 h ++ ":" ++ fmt02 mi ++ ":" ++ fmt02 s.

Definition nl : string := String (ascii_of_nat 10) EmptyString.

(** The two report lines, lines 191 and 195. *)
Definition ok_line (h mi s : Z) (value : string) : string :=
  nl ++ time_str h mi s ++ " - " ++ value ++ " cm" ++ nl.

Definition fail_line (h mi s : Z) : string :=
  nl ++ time_str h mi s ++ " - Falha" ++ nl.

Definition report_line (g : system_state_t) (h mi s : Z) : string :=
  if state_eqb (current_state g) STATE_MEASUREMENT_COMPLETE then
    let duration_us := absolute_time_diff_us (echo_start_time g) (echo_end_time g) in
    ok_line h mi s (fmt_0f (distance_f32 duration_us))
  else fail_line h mi s.

(** ** The foreground loop and the interleaved interrupts *)

(** Program points of the body of [while (true)] in [main]:
    [PC_Top] reads a character and processes it (lines 134-169),
    [PC_Trigger] tests [system_running && current_state == STATE_IDLE] and
    sends the pulse (171-173), [PC_SetWait] is line 174, [PC_Arm] line 176,
    [PC_Check] the test of line 179, [PC_Report] lines 181-196, [PC_Reset]
    lines 197-202 and [PC_Sleep] line 204. *)
Inductive pc_t :=
| PC_Top | PC_Trigger | PC_SetWait | PC_Arm
| PC_Check | PC_Report | PC_Reset | PC_Sleep.

Definition pc_eqb (a b : pc_t) : bool :=
  match a, b with
  | PC_Top, PC_Top | PC_Trigger, PC_Trigger | PC_SetWait, PC_SetWait
  | PC_Arm, PC_Arm | PC_Check, PC_Check | PC_Report, PC_Report
  | PC_Reset, PC_Reset | PC_Sleep, PC_Sleep => true
  | _, _ => false
  end.

(** The program state together with the SDK's alarm pool: the ids of the
    alarms still pending and the next id [add_alarm_in_us] returns. *)
Record machine := mk_machine {
  g_state : system_state_t;
  pc : pc_t;
  pending : list Z;
  next_alarm_id : Z
}.

Definition machine_init : machine := mk_machine g_state_init PC_Top [] 1.

(** Environment events: a foreground step (with the value
    [getchar_timeout_us] returns, [None] for [PICO_ERROR_TIMEOUT], and the
    RTC's hour, minute and second), the GPIO interrupt, or the expiry of a
    pending alarm. *)
Inductive label :=
| LFg (inp : option Z) (h mi s : Z)
| LEcho (gpio events t_rise t_fall : Z)
| LAlarm (id : Z).

Definition is_fg (l : label) : bool :=
  match l with LFg _ _ _ _ => true | _ => false end.

(** [cancel_alarm]: idempotent removal from the pool. *)
Definition cancel_alarm (id : Z) (p : list Z) : list Z :=
  filter (fun x => negb (x =? id)) p.

Definition apply_cancels (effs : list effect) (p : list Z) : list Z :=
  fold_left (fun p e => match e with ECancelAlarm id => cancel_alarm id p | _ => p end)
    effs p.

Definition is_terminal (s : measurement_state_t) : bool :=
  state_eqb s STATE_MEASUREMENT_COMPLETE || state_eqb s STATE_MEASUREMENT_ERROR.

Definition fg_step (m : machine) (inp : option Z) (h mi s : Z)
  : option (machine * list effect) :=
  let g := g_state m in
  let goto p g' := mk_machine g' p (pending m) (next_alarm_id m) in
  match pc m with
  | PC_Top =>
      match inp with
      | None => Some (goto PC_Trigger g, [])
      | Some c =>
          match process_char c g with
          | None => None
          | Some (g', effs, cont) =>
              Some (goto (if cont then PC_Top else PC_Trigger) g', effs)
          end
      end
  | PC_Trigger =>
      if system_running g && state_eqb (current_state g) STATE_IDLE
      then Some (goto PC_SetWait g, send_trigger_pulse)
      else Some (goto PC_Check g, [])
  | PC_SetWait =>
      Some (goto PC_Arm (set_current_state STATE_WAITING_FOR_ECHO g), [])
  | PC_Arm =>
      let id := next_alarm_id m in
      Some (mk_machine (set_measurement_alarm_id id g) PC_Check
              (id :: pending m) (id + 1),
            [EAddAlarm MEASUREMENT_TIMEOUT_US])
  | PC_Check =>
      if is_terminal (current_state g)
      then Some (goto PC_Report g, []) else Some (goto PC_Sleep g, [])
  | PC_Report => Some (goto PC_Reset g, [EReport (report_line g h mi s)])
  | PC_Reset =>
      Some (goto PC_Sleep (set_current_state STATE_IDLE g),
            if system_running g then [ESleepMs 1000] else [])
  | PC_Sleep => Some (goto PC_Top g, [ESleepMs 10])
  end.

Definition step (m : machine) (l : label) : option (machine * list effect) :=
  match l with
  | LFg inp h mi s => fg_step m inp h mi s
  | LEcho gpio events tr tf =>
      let '(g', effs) := echo_callback gpio events tr tf (g_state m) in
      Some (mk_machine g' (pc m) (apply_cancels effs (pending m)) (next_alarm_id m),
            effs)
  | LAlarm id =>
      if existsb (fun x => x =? id) (pending m)
      then Some (mk_machine (timeout_callback (g_state m)) (pc m)
                   (cancel_alarm id (pending m)) (next_alarm_id m), [])
      else Some (m, [])
  end.

(** One executed step, for traces. *)
Record step_rec := mk_rec {
  r_pre : machine;
  r_lab : label;
  r_post : machine;
  r_effs : list effect
}.

Fixpoint exec (m : machine) (ls : list label) : option (machine * list step_rec) :=
  match ls with
  | [] => Some (m, [])
  | l :: ls' =>
      match step m l with
      | None => None
      | Some (m1, e1) =>
          match exec m1 ls' with
          | None => None
          | Some (m2, tr) => Some (m2, mk_rec m l m1 e1 :: tr)
          end
      end
  end.

(** Run until the foreground is back at the top of the loop (or the events
    run out); the remaining events are not used. *)
Fixpoint run_iter (m : machine) (ls : list label) : option (machine * list effect) :=
  match ls with
  | [] => Some (m, [])
  | l :: ls' =>
      match step m l with
      | None => None
      | Some (m1, e1) =>
          if is_fg l && pc_eqb (pc m1) PC_Top then Some (m1, e1)
          else
            match run_iter m1 ls' with
            | None => None
            | Some (m2, e2) => Some (m2, e1 ++ e2)
            end
      end
  end.

(** ** Auxiliary definitions for the statements *)

(** The two serialised orders of one falling-edge interrupt and one run of
    the timeout callback; the states after each of the two handlers. *)
Definition race (echo_first : bool) (gpio events tr tf : Z) (g : system_state_t)
  : list system_state_t :=
  if echo_first then
    let g1 := fst (echo_callback gpio events tr tf g) in [g1; timeout_callback g1]
  else
    let g1 := timeout_callback g in [g1; fst (echo_callback gpio events tr tf g1)].

(** Number of transitions out of [STATE_WAITING_FOR_ECHO] along a sequence
    of states that starts after [prev]. *)
Fixpoint exits (prev : measurement_state_t) (l : list measurement_state_t) : nat :=
  match l with
  | [] => O
  | s :: t =>
      (if state_eqb prev STATE_WAITING_FOR_ECHO && negb (state_eqb s STATE_WAITING_FOR_ECHO)
       then 1 else 0)%nat + exits s t
  end.

(** Effects that start a measurement: the rising edge of the trigger pulse
    and the arming of an alarm. *)
Definition starts_cycle (e : effect) : bool :=
  match e with
  | EGpioPut pin level => (pin =? TRIGGER_PIN) && (level =? 1)
  | EAddAlarm _ => true
  | _ => false
  end.

(** The foreground steps of a trace, in order. *)
Definition fg_recs (tr : list step_rec) : list step_rec :=
  filter (fun r => is_fg (r_lab r)) tr.

(** Consecutive foreground steps continue where the previous one stopped. *)
Fixpoint pc_chain (p : pc_t) (l : list step_rec) : Prop :=
  match l with
  | [] => True
  | r :: t => pc (r_pre r) = p /\ pc_chain (pc (r_post r)) t
  end.

(** Concrete runs used by the witnesses: the program with [start] already
    entered, and a foreground event with no input character. *)
Definition m_running : machine :=
  mk_machine (set_system_running true g_state_init) PC_Top [] 1.

Definition F0 : label := LFg None 10 0 0.

Definition m_at (p : pc_t) (s : measurement_state_t) : machine :=
  mk_machine (set_current_state s (set_system_running true g_state_init)) p [] 1.

Definition trace_first_trigger : list step_rec :=
  [mk_rec (m_at PC_Top STATE_IDLE) F0 (m_at PC_Trigger STATE_IDLE) [];
   mk_rec (m_at PC_Trigger STATE_IDLE) F0 (m_at PC_SetWait STATE_IDLE) send_trigger_pulse;
   mk_rec (m_at PC_SetWait STATE_IDLE) F0 (m_at PC_Arm STATE_WAITING_FOR_ECHO) []].

(** The result lines among the effects. *)
Definition report_lines (effs : list effect) : list string :=
  flat_map (fun e => match e with EReport l => [l] | _ => [] end) effs.

(** A result line that matches the state it reports. *)
Definition report_ok (st : measurement_state_t) (line : string) : Prop :=
  (st = STATE_MEASUREMENT_COMPLETE /\
   exists h mi s ts te,
     line = ok_line h mi s (fmt_0f (distance_f32 (absolute_time_diff_us ts te)))) \/
  (st = STATE_MEASUREMENT_ERROR /\ exists h mi s, line = fail_line h mi s).

(** A sequence of characters fed to [process_char], ignoring output. *)
Fixpoint process_chars (cs : list Z) (g : system_state_t) : option system_state_t :=
  match cs with
  | [] => Some g
  | c :: cs' =>
      match process_char c g with
      | None => None
      | Some (g', _, _) => process_chars cs' g'
      end
  end.

(** The command buffer is the 64-byte array and its index is in range. *)
Definition cmd_wf (g : system_state_t) : Prop :=
  0 <= cmd_index g <= CMD_BUFFER_SIZE - 1 /\
  Z.of_nat (List.length (cmd_buffer g)) = CMD_BUFFER_SIZE.

(** Number of measurement cycles started in a trace. *)
Definition cycles_started (tr : list step_rec) : nat :=
  List.length (filter (fun r => state_eqb (current_state (g_state (r_pre r))) STATE_IDLE &&
                           state_eqb (current_state (g_state (r_post r))) STATE_WAITING_FOR_ECHO)
                 tr).

(** Two cycles: the first gets a rising edge at 100 us and a falling edge at
    700 us; the second gets only a falling edge, at 1000700 us. *)
Definition two_cycles : list label :=
  [F0; F0; F0; F0; LEcho ECHO_PIN GPIO_IRQ_EDGE_RISE 100 100;
   LEcho ECHO_PIN GPIO_IRQ_EDGE_FALL 700 700; F0; F0; F0; F0;
   F0; F0; F0; F0; LEcho ECHO_PIN GPIO_IRQ_EDGE_FALL 1000700 1000700].

(** The value the spec gives for the distance, in exact arithmetic:
    [duration_us * 0.0343 / 2]. *)
Definition exact_distance (duration_us : Z) : Q :=
  inject_Z duration_us * (343 # 10000) * (1 # 2).

(** Unit roundoff of binary32. *)
Definition u24 : Q := 1 # 16777216.

(** A completed cycle with a rising edge at 100 us and a falling edge at
    700 us. *)
Definition g_complete_600 : system_state_t :=
  mk_system_state STATE_MEASUREMENT_COMPLETE 100 700 0 true (repeat 0 64) 0.

(** ** Further definitions: the command line, the alarm pool and the
    older version of the program *)

(** [process_char] over a sequence of characters, collecting the output. *)
Fixpoint feed (cs : list Z) (g : system_state_t) : option (system_state_t * list effect) :=
  match cs with
  | [] => Some (g, [])
  | c :: cs' =>
      match process_char c g with
      | None => None
      | Some (g', e, _) =>
          match feed cs' g' with
          | None => None
          | Some (g'', e') => Some (g'', e ++ e')
          end
      end
  end.

(** The timeout guard: a measurement waiting for its echo, past the arming
    step, has its alarm pending. *)
Definition guard_inv (m : machine) : Prop :=
  current_state (g_state m) = STATE_WAITING_FOR_ECHO ->
  pc m = PC_Arm \/ In (measurement_alarm_id (g_state m)) (pending m).

(** The message of a recognised [start] command (line 151). *)
Definition started_msg : effect := EPrint "
Medições iniciadas.
".

(** Before [start]: the run flag is clear and the loop is not inside the
    start of a cycle (lines 174-176). *)
Definition not_started (m : machine) : Prop :=
  system_running (g_state m) = false /\ pc m <> PC_SetWait /\ pc m <> PC_Arm.

(** The values of an [int8_t]. *)
Definition int8_range : list Z := map (fun k => Z.of_nat k - 128) (seq 0 256).

(** [src/main/main.c]: an earlier version of the program, with its own pins,
    a 20-byte command buffer, a busy-waiting measurement and [%.2f]
    output. *)
Module MainC.

(** Pins (lines 15-16). *)
Definition TRIG_PIN : Z := 15.
Definition ECHO_PIN : Z := 14.

(** [sensor_state_t] (lines 19-27); [flag_f_trigger] is an [int]. *)
Record sensor_state_t := mk_sensor {
  alarm_id : Z;
  flag_f_trigger : Z;
  timer_fired : bool;
  action_completed : bool;
  t_descida : Z;
  t_subida : Z
}.

(** [alarm_callback] (lines 36-41); it returns 0: no rescheduling. *)
Definition alarm_callback (s : sensor_state_t) : sensor_state_t :=
  mk_sensor (alarm_id s) (flag_f_trigger s) true (action_completed s)
    (t_descida s) (t_subida s).

(** [trigger_callback gpio events] (lines 43-61), the callback of every GPIO
    interrupt; [t_rise] and [t_fall] are what [get_absolute_time] returns
    in the two branches. *)
Definition trigger_callback (gpio events t_rise t_fall : Z) (s : sensor_state_t)
  : sensor_state_t * list effect :=
  let s1 := if (gpio =? ECHO_PIN) && (events =? 8)
            then mk_sensor (alarm_id s) (flag_f_trigger s) (timer_fired s)
                   (action_completed s) (t_descida s) t_rise
            else s in
  if (gpio =? ECHO_PIN) && (events =? 4) && negb (flag_f_trigger s1 =? 0) then
    let s2 := mk_sensor (alarm_id s1) 0 (timer_fired s1) (action_completed s1)
                t_fall (t_subida s1) in
    let effs := if negb (timer_fired s2) && negb (alarm_id s2 =? 0)
                then [ECancelAlarm (alarm_id s2)] else [] in
    (mk_sensor (alarm_id s2) (flag_f_trigger s2) false true
       (t_descida s2) (t_subida s2), effs)
  else (s1, []).

(** The sensor state after lines 136-143 (flags reset, the pulse sent, the
    alarm of id [id] armed for 500 ms), before any interrupt. *)
Definition arm (s : sensor_state_t) (id : Z) : sensor_state_t :=
  mk_sensor id 1 false false (t_descida s) (t_subida s).

(** Interrupts during a measurement: a GPIO event or the alarm. *)
Inductive isr_event :=
| IEdge (gpio events t_rise t_fall : Z)
| IAlarm.

Definition isr_step (e : isr_event) (s : sensor_state_t) : sensor_state_t * list effect :=
  match e with
  | IEdge gpio events tr tf => trigger_callback gpio events tr tf s
  | IAlarm => (alarm_callback s, [])
  end.

Fixpoint isr_run (es : list isr_event) (s : sensor_state_t) : sensor_state_t * list effect :=
  match es with
  | [] => (s, [])
  | e :: es' =>
      let '(s1, e1) := isr_step e s in
      let '(s2, e2) := isr_run es' s1 in (s2, e1 ++ e2)
  end.

(** The three branches of lines 155-168. *)
Inductive outcome :=
| ODistance (duration_us : Z)
| OFalha
| ONotDone.

(** Lines 155-168: which line is printed.  The volatile fields are read one
    at a time, and interrupts may run between the reads: [es1] runs before
    line 155 reads [action_completed], [es2] before line 157 reads
    [t_subida] (or line 161 reads [timer_fired]), and [es3] before line 157
    reads [t_descida]. *)
Definition report_outcome (es1 es2 es3 : list isr_event) (s : sensor_state_t) : outcome :=
  let s1 := fst (isr_run es1 s) in
  let s2 := fst (isr_run es2 s1) in
  if action_completed s1
  then ODistance (absolute_time_diff_us (t_subida s2) (t_descida (fst (isr_run es3 s2))))
  else if timer_fired s2 then OFalha else ONotDone.

(** The time of the first interrupt with [events == 0x4] on [ECHO_PIN]. *)
Fixpoint first_fall (es : list isr_event) : option Z :=
  match es with
  | [] => None
  | IEdge gpio events _ tf :: es' =>
      if (gpio =? ECHO_PIN) && (events =? 4) then Some tf else first_fall es'
  | IAlarm :: es' => first_fall es'
  end.

(** An alarm event. *)
Definition is_alarm (e : isr_event) : bool :=
  match e with IAlarm => true | _ => false end.

(** Whether such a falling edge comes before the first alarm. *)
Fixpoint fall_before_alarm (es : list isr_event) : bool :=
  match es with
  | [] => false
  | IEdge gpio events _ _ :: es' =>
      if (gpio =? ECHO_PIN) && (events =? 4) then true else fall_before_alarm es'
  | IAlarm :: es' => false
  end.

(** The events after the first interrupt with [events == 0x4] on
    [ECHO_PIN], if there is one. *)
Fixpoint after_first_fall (es : list isr_event) : option (list isr_event) :=
  match es with
  | [] => None
  | IEdge gpio events _ _ :: es' =>
      if (gpio =? ECHO_PIN) && (events =? 4) then Some es' else after_first_fall es'
  | IAlarm :: es' => after_first_fall es'
  end.

(** Whether an alarm fired after that falling edge (anywhere, if there is
    none). *)
Definition fired_last (es : list isr_event) : bool :=
  match after_first_fall es with
  | Some rest => existsb is_alarm rest
  | None => existsb is_alarm es
  end.

(** The command line of this version: [reading_active], [command[20]] and
    [cmd_index] (lines 87-90). *)
Record cmd_state := mk_cmd {
  reading_active : bool;
  command : list Z;
  cmd_index : Z
}.

(** Lines 99-132 for one character [ch]. *)
Definition process_char (ch : Z) (st : cmd_state) : option (cmd_state * list effect) :=
  if (ch =? 10) || (ch =? 13) then
    if cmd_index st >? 0 then
      match store (command st) (cmd_index st) 0 with
      | None => None
      | Some buf =>
          let '(act, msg) :=
            if strcmp_eq buf "start" then (true, EPrint "Leitura iniciada!
")
            else if strcmp_eq buf "stop" then (false, EPrint "Leitura parada!
")
            else (reading_active st, EPrint "Comando desconhecido. Use 'start' ou 'stop'.
") in
          Some (mk_cmd act (repeat 0 20) 0, [msg])
      end
    else Some (st, [])
  else if cmd_index st <? 20 - 1 then
    match store (command st) (cmd_index st) ch with
    | None => None
    | Some buf => Some (mk_cmd (reading_active st) buf (cmd_index st + 1), [])
    end
  else Some (st, []).

(** [process_char] over a sequence of characters. *)
Fixpoint feed (cs : list Z) (st : cmd_state) : option (cmd_state * list effect) :=
  match cs with
  | [] => Some (st, [])
  | c :: cs' =>
      match process_char c st with
      | None => None
      | Some (st', e) =>
          match feed cs' st' with
          | None => None
          | Some (st'', e') => Some (st'', e ++ e')
          end
      end
  end.

End MainC.

(** The line [start] typed at the prompt, each character followed by the
    rest of its loop iteration, then the first cycle up to its sleep. *)
Definition start_then_wait : list label :=
  flat_map (fun c => [LFg (Some c) 10 0 0; F0; F0; F0]) (codes "start") ++
  [LFg (Some 13) 10 0 0; F0; F0; F0; F0].

(** ** Basic facts *)

Lemma state_eqb_eq : forall a b, state_eqb a b = true <-> a = b.
Proof. destruct a, b; simpl; split; congruence. Qed.

Lemma state_eqb_refl : forall a, state_eqb a a = true.
Proof. destruct a; reflexivity. Qed.

Ltac state_cases s := destruct s; simpl in *; try congruence.

Ltac des_if H :=
  repeat match type of H with
         | context [if ?b then _ else _] => let E := fresh "E" in destruct b eqn:E
         end.

Ltac forall_eff :=
  repeat (apply Forall_cons; [simpl; first [reflexivity | intros ? Hx; discriminate Hx] |]);
  apply Forall_nil.

(** [process_char] only touches the command buffer, its index and the run
    flag, and only echoes and prints. *)
Lemma process_char_frame :
  forall c g g' effs k,
    process_char c g = Some (g', effs, k) ->
    (exists run buf idx,
        g' = mk_system_state (current_state g) (echo_start_time g) (echo_end_time g)
               (measurement_alarm_id g) run buf idx) /\
    Forall (fun e => starts_cycle e = false) effs /\
    Forall (fun e => forall s, e <> EReport s) effs.
Proof.
  intros c g g' effs k H.
  unfold process_char in H.
  destruct ((c =? 13) || (c =? 10)).
  - destruct (cmd_index g =? 0).
    + inversion H; subst. split; [exists (system_running g'), (cmd_buffer g'), (cmd_index g'); destruct g'; reflexivity |].
      split; forall_eff.
    + destruct (store (cmd_buffer g) (cmd_index g) 0) as [b|]; [| discriminate].
      destruct (strcmp_eq b "start"); [| destruct (strcmp_eq b "stop")];
        inversion H; subst; (split; [do 3 eexists; reflexivity |]);
        split; forall_eff.
  - destruct (cmd_index g <? CMD_BUFFER_SIZE - 1).
    + destruct (store (cmd_buffer g) (cmd_index g) c) as [b|]; [| discriminate].
      inversion H; subst. split; [do 3 eexists; reflexivity |].
      split; forall_eff.
    + inversion H; subst. split; [exists (system_running g'), (cmd_buffer g'), (cmd_index g'); destruct g'; reflexivity |].
      split; forall_eff.
Qed.

(** An interrupt step keeps the program point, emits only cancellations, and
    either keeps the measurement state or leaves [WAITING] for a terminal
    state. *)
Lemma isr_step_spec :
  forall m l m' effs,
    is_fg l = false -> step m l = Some (m', effs) ->
    pc m' = pc m /\
    Forall (fun e => exists id, e = ECancelAlarm id) effs /\
    (current_state (g_state m') = current_state (g_state m) \/
     (current_state (g_state m) = STATE_WAITING_FOR_ECHO /\
      is_terminal (current_state (g_state m')) = true)).
Proof.
  intros [g p pd nid] l m' effs Hl H.
  destruct l as [inp h mi s | gpio ev tr tf | id]; [discriminate | |].
  - simpl in H. destruct g as [st s e aid run buf idx].
    unfold echo_callback in H; simpl in H.
    destruct (gpio =? ECHO_PIN); [| inversion H; subst; simpl; auto].
    destruct (Z.land ev GPIO_IRQ_EDGE_RISE =? 0);
      destruct (Z.land ev GPIO_IRQ_EDGE_FALL =? 0);
      state_cases st; inversion H; subst; simpl;
      (split; [reflexivity |]); (split; [repeat constructor; eauto |]); auto.
  - simpl in H. destruct (existsb (fun x => x =? id) pd).
    + inversion H; subst; simpl. split; [reflexivity |]. split; [constructor |].
      destruct g as [st s e aid run buf idx]; unfold timeout_callback; simpl.
      state_cases st; auto.
    + inversion H; subst; simpl; auto.
Qed.

Lemma exec_valid :
  forall ls m m' tr, exec m ls = Some (m', tr) ->
    Forall (fun r => step (r_pre r) (r_lab r) = Some (r_post r, r_effs r)) tr.
Proof.
  induction ls as [| l ls IH]; intros m m' tr H; simpl in H.
  - inversion H; constructor.
  - destruct (step m l) as [[m1 e1]|] eqn:E; [| discriminate].
    destruct (exec m1 ls) as [[m2 tr']|] eqn:E2; [| discriminate].
    inversion H; subst. constructor; [exact E | eapply IH; eauto].
Qed.

Lemma exec_chain :
  forall ls m m' tr, exec m ls = Some (m', tr) -> pc_chain (pc m) (fg_recs tr).
Proof.
  induction ls as [| l ls IH]; intros m m' tr H; simpl in H.
  - inversion H; subst; exact I.
  - destruct (step m l) as [[m1 e1]|] eqn:E; [| discriminate].
    destruct (exec m1 ls) as [[m2 tr']|] eqn:E2; [| discriminate].
    inversion H; subst. unfold fg_recs; simpl.
    destruct (is_fg l) eqn:Hl; simpl.
    + split; [reflexivity | eapply IH; eauto].
    + destruct (isr_step_spec m l m1 e1 Hl E) as [Hpc _].
      rewrite <- Hpc. eapply IH; eauto.
Qed.

Lemma pc_chain_first :
  forall p l a, pc_chain p l -> nth_error l 0 = Some a -> pc (r_pre a) = p.
Proof. intros p [| x l] a H1 H2; simpl in *; [discriminate | inversion H2; subst; tauto]. Qed.

Lemma pc_chain_next :
  forall l p k a b, pc_chain p l -> nth_error l k = Some a ->
    nth_error l (S k) = Some b -> pc (r_pre b) = pc (r_post a).
Proof.
  induction l as [| x l IH]; intros p k a b H Ha Hb; [destruct k; discriminate |].
  destruct H as [_ H]. destruct k as [| k]; simpl in Ha, Hb.
  - inversion Ha; subst. eapply pc_chain_first; eauto.
  - eapply IH; eauto.
Qed.

Ltac fg_cases H :=
  lazymatch type of H with
  | step ?m (LFg ?inp ?h ?mi ?s) = _ =>
      destruct m as [[st ts te aid run buf idx] p pd nid];
      simpl in H; unfold fg_step in H; simpl in H; destruct p
  end.

(** The only step from [IDLE] to [WAITING] is line 174. *)
Lemma step_into_waiting :
  forall m l m' effs,
    step m l = Some (m', effs) ->
    current_state (g_state m) = STATE_IDLE ->
    current_state (g_state m') = STATE_WAITING_FOR_ECHO ->
    is_fg l = true /\ pc m = PC_SetWait /\ pc m' = PC_Arm /\ effs = [].
Proof.
  intros m l m' effs H H1 H2.
  destruct (is_fg l) eqn:Hl.
  - destruct l as [inp h mi s | |]; [| discriminate | discriminate].
    fg_cases H; simpl in H1; subst st.
    + destruct inp as [c|]; [| inversion H; subst; discriminate].
      destruct (process_char c _) as [[[g' e] k]|] eqn:E; [| discriminate].
      destruct (process_char_frame _ _ _ _ _ E) as [[r [b [i Hg]]] _].
      inversion H; subst; simpl in H2; discriminate.
    + des_if H; inversion H; subst; discriminate.
    + inversion H; subst; auto.
    + inversion H; subst; discriminate.
    + des_if H; inversion H; subst; discriminate.
    + inversion H; subst; discriminate.
    + inversion H; subst; discriminate.
    + inversion H; subst; discriminate.
  - destruct (isr_step_spec m l m' effs Hl H) as [_ [_ [Hs | [Hs _]]]]; congruence.
Qed.

(** A foreground step that reaches line 174 is the trigger test, taken. *)
Lemma fg_step_to_setwait :
  forall m l m' effs,
    is_fg l = true -> step m l = Some (m', effs) -> pc m' = PC_SetWait ->
    pc m = PC_Trigger /\ effs = send_trigger_pulse /\
    system_running (g_state m) = true /\ current_state (g_state m) = STATE_IDLE.
Proof.
  intros m l m' effs Hl H Hp.
  destruct l as [inp h mi s | |]; [| discriminate | discriminate].
  fg_cases H.
  - destruct inp as [c|]; [| inversion H; subst; discriminate].
    destruct (process_char c _) as [[[g' e] [|]]|]; inversion H; subst; discriminate.
  - destruct run; state_cases st; inversion H; subst; simpl in *; try discriminate; auto.
  - inversion H; subst; discriminate.
  - inversion H; subst; discriminate.
  - des_if H; inversion H; subst; discriminate.
  - inversion H; subst; discriminate.
  - inversion H; subst; discriminate.
  - inversion H; subst; discriminate.
Qed.

Lemma fg_step_at_arm :
  forall m l m' effs,
    is_fg l = true -> step m l = Some (m', effs) -> pc m = PC_Arm ->
    effs = [EAddAlarm MEASUREMENT_TIMEOUT_US].
Proof.
  intros m l m' effs Hl H Hp.
  destruct l as [inp h mi s | |]; [| discriminate | discriminate].
  fg_cases H; simpl in Hp; try discriminate. inversion H; reflexivity.
Qed.

(** Within one loop iteration that starts with a non-idle state, the state
    stays non-idle up to the trigger test, and no step starts a measurement. *)
Lemma iteration_step_no_start :
  forall m l m1 e1,
    (((pc m = PC_Top \/ pc m = PC_Trigger) /\ current_state (g_state m) <> STATE_IDLE) \/
     pc m = PC_Check \/ pc m = PC_Report \/ pc m = PC_Reset \/ pc m = PC_Sleep) ->
    step m l = Some (m1, e1) ->
    Forall (fun e => starts_cycle e = false) e1 /\
    ((is_fg l = true /\ pc m1 = PC_Top) \/
     (((pc m1 = PC_Top \/ pc m1 = PC_Trigger) /\ current_state (g_state m1) <> STATE_IDLE) \/
      pc m1 = PC_Check \/ pc m1 = PC_Report \/ pc m1 = PC_Reset \/ pc m1 = PC_Sleep)).
Proof.
  intros m l m1 e1 Hinv H.
  destruct (is_fg l) eqn:Hl.
  - destruct l as [inp h mi s | |]; [| discriminate | discriminate].
    fg_cases H; simpl in Hinv.
    + destruct Hinv as [[_ Hst] | Hinv]; [| intuition discriminate].
      destruct inp as [c|];
        [| inversion H; subst; simpl; split; [constructor | right; left; split; [right; reflexivity | exact Hst]]].
      destruct (process_char c _) as [[[g' e] k]|] eqn:E; [| discriminate].
      destruct (process_char_frame _ _ _ _ _ E) as [[r [b [i Hg]]] [Hs _]].
      subst g'; simpl in *. destruct k; inversion H; subst; split; auto; simpl;
        first [left; split; reflexivity | right; left; split; [right; reflexivity | exact Hst]].
    + destruct Hinv as [[_ Hst] | Hinv]; [| intuition discriminate].
      destruct run; state_cases st; inversion H; subst; simpl;
        split; auto; right; tauto.
    + intuition discriminate.
    + intuition discriminate.
    + des_if H; inversion H; subst; simpl; split; auto; tauto.
    + inversion H; subst; simpl; split; [forall_eff | tauto].
    + des_if H; inversion H; subst; simpl; split; try forall_eff; tauto.
    + inversion H; subst; simpl; split; [forall_eff | tauto].
  - destruct (isr_step_spec m l m1 e1 Hl H) as [Hpc [Hc Hst]].
    split.
    + eapply Forall_impl; [| exact Hc]. intros e [id ->]; reflexivity.
    + right. rewrite Hpc.
      destruct Hst as [Hst | [Hw Ht]]; [rewrite Hst; tauto |].
      destruct (current_state (g_state m1)); try discriminate;
        (destruct Hinv as [[Hp _] | Hp]; [left; split; [exact Hp | discriminate] | right; exact Hp]).
Qed.

Lemma iteration_no_start :
  forall ls m m' effs,
    (((pc m = PC_Top \/ pc m = PC_Trigger) /\ current_state (g_state m) <> STATE_IDLE) \/
     pc m = PC_Check \/ pc m = PC_Report \/ pc m = PC_Reset \/ pc m = PC_Sleep) ->
    run_iter m ls = Some (m', effs) ->
    Forall (fun e => starts_cycle e = false) effs.
Proof.
  induction ls as [| l ls IH]; intros m m' effs Hinv H; simpl in H.
  - inversion H; constructor.
  - destruct (step m l) as [[m1 e1]|] eqn:E; [| discriminate].
    destruct (iteration_step_no_start m l m1 e1 Hinv E) as [He Hnext].
    destruct (is_fg l && pc_eqb (pc m1) PC_Top) eqn:Hstop.
    + inversion H; subst; exact He.
    + destruct (run_iter m1 ls) as [[m2 e2]|] eqn:E2; [| discriminate].
      inversion H; subst. apply Forall_app; split; [exact He |].
      eapply IH; [| exact E2].
      destruct Hnext as [[Hl Hp] | Hn]; [| exact Hn].
      rewrite Hl, Hp in Hstop; discriminate.
Qed.

Lemma report_lines_app : forall a b, report_lines (a ++ b) = report_lines a ++ report_lines b.
Proof. intros; unfold report_lines; apply flat_map_app. Qed.

Lemma isr_step_no_report :
  forall m l m' effs, is_fg l = false -> step m l = Some (m', effs) -> report_lines effs = [].
Proof.
  intros m l m' effs Hl H.
  destruct (isr_step_spec m l m' effs Hl H) as [_ [Hc _]]. clear H.
  induction Hc as [| e t [id ->] _ IH]; [reflexivity | exact IH].
Qed.

Lemma isr_step_keeps_non_waiting :
  forall m l m' effs, is_fg l = false -> step m l = Some (m', effs) ->
    current_state (g_state m) <> STATE_WAITING_FOR_ECHO ->
    current_state (g_state m') = current_state (g_state m).
Proof.
  intros m l m' effs Hl H Hn.
  destruct (isr_step_spec m l m' effs Hl H) as [_ [_ [Hs | [Hs _]]]]; congruence.
Qed.

(** The tail of the loop body: line 204. *)
Lemma iter_from_sleep :
  forall ls m m' effs,
    pc m = PC_Sleep -> run_iter m ls = Some (m', effs) -> pc m' = PC_Top ->
    report_lines effs = [] /\
    (current_state (g_state m) = STATE_IDLE -> current_state (g_state m') = STATE_IDLE).
Proof.
  induction ls as [| l ls IH]; intros m m' effs Hp H Ht; simpl in H.
  - inversion H; subst; congruence.
  - destruct (step m l) as [[m1 e1]|] eqn:E; [| discriminate].
    destruct (is_fg l) eqn:Hl; simpl in H.
    + destruct l as [inp h mi s | |]; try discriminate.
      fg_cases E; simpl in Hp; try discriminate.
      inversion E; subst; simpl in H. inversion H; subst; simpl; auto.
    + pose proof (isr_step_spec m l m1 e1 Hl E) as [Hp1 _].
      destruct (run_iter m1 ls) as [[m2 e2]|] eqn:E2; [| discriminate].
      inversion H; subst.
      destruct (IH m1 m' e2 ltac:(congruence) E2 Ht) as [Hr Hi].
      rewrite report_lines_app, (isr_step_no_report _ _ _ _ Hl E), Hr.
      split; [reflexivity |]. intros Hidle. apply Hi.
      rewrite (isr_step_keeps_non_waiting _ _ _ _ Hl E); congruence.
Qed.

(** Line 197: back to [IDLE]. *)
Lemma iter_from_reset :
  forall ls m m' effs,
    pc m = PC_Reset -> run_iter m ls = Some (m', effs) -> pc m' = PC_Top ->
    report_lines effs = [] /\ current_state (g_state m') = STATE_IDLE.
Proof.
  induction ls as [| l ls IH]; intros m m' effs Hp H Ht; simpl in H.
  - inversion H; subst; congruence.
  - destruct (step m l) as [[m1 e1]|] eqn:E; [| discriminate].
    destruct (is_fg l) eqn:Hl; simpl in H.
    + destruct l as [inp h mi s | |]; try discriminate.
      fg_cases E; simpl in Hp; try discriminate.
      inversion E; subst; simpl in H.
      destruct (run_iter _ ls) as [[m2 e2]|] eqn:E2; [| discriminate].
      inversion H; subst.
      destruct ((fun Hq => iter_from_sleep _ _ _ _ Hq E2 Ht) eq_refl) as [Hr Hi].
      rewrite report_lines_app, Hr. split; [destruct run; reflexivity | apply Hi; reflexivity].
    + pose proof (isr_step_spec m l m1 e1 Hl E) as [Hp1 _].
      destruct (run_iter m1 ls) as [[m2 e2]|] eqn:E2; [| discriminate].
      inversion H; subst.
      destruct (IH m1 m' e2 ltac:(congruence) E2 Ht) as [Hr Hi].
      rewrite report_lines_app, (isr_step_no_report _ _ _ _ Hl E), Hr. auto.
Qed.

(** Lines 181-196 in a terminal state: exactly one result line. *)
Lemma iter_from_report :
  forall ls m m' effs,
    pc m = PC_Report -> is_terminal (current_state (g_state m)) = true ->
    run_iter m ls = Some (m', effs) -> pc m' = PC_Top ->
    exists line, report_lines effs = [line] /\
      report_ok (current_state (g_state m)) line /\
      current_state (g_state m') = STATE_IDLE.
Proof.
  induction ls as [| l ls IH]; intros m m' effs Hp Hterm H Ht; simpl in H.
  - inversion H; subst; congruence.
  - destruct (step m l) as [[m1 e1]|] eqn:E; [| discriminate].
    destruct (is_fg l) eqn:Hl; simpl in H.
    + destruct l as [inp h mi s | |]; try discriminate.
      fg_cases E; simpl in Hp; try discriminate.
      inversion E; subst; simpl in H.
      destruct (run_iter _ ls) as [[m2 e2]|] eqn:E2; [| discriminate].
      inversion H; subst.
      destruct ((fun Hq => iter_from_reset _ _ _ _ Hq E2 Ht) eq_refl) as [Hr Hi].
      eexists; split; [simpl; rewrite Hr; reflexivity |]; split; [| exact Hi].
      simpl in Hterm |- *. unfold report_line; simpl.
      destruct st; simpl in Hterm; try discriminate.
      * left; split; [reflexivity |]. do 5 eexists; reflexivity.
      * right; split; [reflexivity |]. do 3 eexists; reflexivity.
    + pose proof (isr_step_spec m l m1 e1 Hl E) as [Hp1 _].
      assert (Hs : current_state (g_state m1) = current_state (g_state m)).
      { apply (isr_step_keeps_non_waiting _ _ _ _ Hl E).
        intro Hw; rewrite Hw in Hterm; discriminate. }
      destruct (run_iter m1 ls) as [[m2 e2]|] eqn:E2; [| discriminate].
      inversion H; subst.
      destruct (IH m1 m' e2 ltac:(congruence) ltac:(congruence) E2 Ht) as [line [Hr [Hok Hi]]].
      exists line. rewrite report_lines_app, (isr_step_no_report _ _ _ _ Hl E), Hr.
      rewrite <- Hs. auto.
Qed.

(** From the test of line 179 to the end of the loop body. *)
Lemma iter_from_check :
  forall ls m m' effs,
    pc m = PC_Check -> run_iter m ls = Some (m', effs) -> pc m' = PC_Top ->
    (report_lines effs = [] /\ is_terminal (current_state (g_state m)) = false) \/
    (exists st_r line, report_lines effs = [line] /\ report_ok st_r line /\
       (st_r = current_state (g_state m) \/
        current_state (g_state m) = STATE_WAITING_FOR_ECHO) /\
       current_state (g_state m') = STATE_IDLE).
Proof.
  induction ls as [| l ls IH]; intros m m' effs Hp H Ht; simpl in H.
  - inversion H; subst; congruence.
  - destruct (step m l) as [[m1 e1]|] eqn:E; [| discriminate].
    destruct (is_fg l) eqn:Hl; simpl in H.
    + destruct l as [inp h mi s | |]; try discriminate.
      fg_cases E; simpl in Hp; try discriminate.
      destruct (is_terminal st) eqn:Hterm; inversion E; subst; simpl in H;
        (destruct (run_iter _ ls) as [[m2 e2]|] eqn:E2; [| discriminate]);
        inversion H; subst.
      * right. destruct ((fun Hq Hq' => iter_from_report _ _ _ _ Hq Hq' E2 Ht) eq_refl Hterm) as [line [Hr [Hok Hi]]].
        exists st, line. simpl in *; auto.
      * left. destruct ((fun Hq => iter_from_sleep _ _ _ _ Hq E2 Ht) eq_refl) as [Hr _]. auto.
    + pose proof (isr_step_spec m l m1 e1 Hl E) as [Hp1 [_ Hs]].
      destruct (run_iter m1 ls) as [[m2 e2]|] eqn:E2; [| discriminate].
      inversion H; subst.
      rewrite report_lines_app, (isr_step_no_report _ _ _ _ Hl E); simpl.
      destruct (IH m1 m' e2 ltac:(congruence) E2 Ht) as [[Hr Hn] | [st_r [line [Hr [Hok [Hor Hi]]]]]].
      * left. split; [exact Hr |].
        destruct Hs as [Hs | [Hw _]]; [congruence | rewrite Hw; reflexivity].
      * right. exists st_r, line. repeat split; auto.
        destruct Hs as [Hs | [Hw _]]; [rewrite <- Hs; exact Hor | right; exact Hw].
Qed.

Lemma iter_from_check_completes :
  forall m, pc m = PC_Check ->
    exists m' effs, run_iter m [F0; F0; F0; F0] = Some (m', effs) /\ pc m' = PC_Top.
Proof.
  intros [g p pd nid] Hp; simpl in Hp; subst p.
  unfold run_iter, step, fg_step; simpl.
  destruct (is_terminal (current_state g)); simpl; eauto.
Qed.

(** Stores inside the array keep its length. *)
Lemma list_set_length : forall l n v, List.length (list_set l n v) = List.length l.
Proof. induction l as [| x l IH]; intros [| n] v; simpl; auto. Qed.

Lemma store_in_bounds :
  forall buf i v, 0 <= i < Z.of_nat (List.length buf) ->
    store buf i v = Some (list_set buf (Z.to_nat i) v).
Proof.
  intros buf i v H. unfold store.
  destruct (0 <=? i) eqn:E1; [| apply Z.leb_gt in E1; lia].
  destruct (i <? Z.of_nat (List.length buf)) eqn:E2; [reflexivity | apply Z.ltb_ge in E2; lia].
Qed.

Lemma process_char_wf :
  forall c g, cmd_wf g ->
    exists g' effs k, process_char c g = Some (g', effs, k) /\ cmd_wf g'.
Proof.
  intros c g [Hi Hl]. unfold process_char, CMD_BUFFER_SIZE in *.
  destruct ((c =? 13) || (c =? 10)).
  - destruct (cmd_index g =? 0) eqn:E0.
    + do 3 eexists; split; [reflexivity | split; assumption].
    + rewrite store_in_bounds by lia.
      set (b := list_set (cmd_buffer g) (Z.to_nat (cmd_index g)) 0).
      destruct (strcmp_eq b "start"); [| destruct (strcmp_eq b "stop")];
        do 3 eexists; (split; [reflexivity |]);
        unfold cmd_wf, CMD_BUFFER_SIZE; simpl; (split; [lia | reflexivity]).
  - destruct (cmd_index g <? 64 - 1) eqn:E1.
    + apply Z.ltb_lt in E1. rewrite store_in_bounds by lia.
      do 3 eexists; (split; [reflexivity |]).
      unfold cmd_wf, CMD_BUFFER_SIZE; simpl; rewrite list_set_length; lia.
    + do 3 eexists; split; [reflexivity | split; assumption].
Qed.

(** ** Rounding error of the distance computation *)

Lemma rne_div_err (a b : Z) :
  (0 <= a)%Z -> (0 < b)%Z -> (2 * Z.abs (rne_div a b * b - a) <= b)%Z.
Proof.
  intros Ha Hb. unfold rne_div.
  pose proof (Z.div_mod a b ltac:(lia)) as Hd.
  pose proof (Z.mod_pos_bound a b Hb) as Hm.
  set (q := a / b) in *. set (r := a mod b) in *.
  destruct (b <? 2 * r) eqn:E1; [apply Z.ltb_lt in E1 | apply Z.ltb_ge in E1].
  - rewrite Z.abs_eq; nia.
  - destruct (2 * r <? b) eqn:E2; [apply Z.ltb_lt in E2 | apply Z.ltb_ge in E2].
    + rewrite Z.abs_neq; nia.
    + destruct (Z.odd q).
      * rewrite Z.abs_eq; nia.
      * rewrite Z.abs_neq; nia.
Qed.

Section Float_error.
Local Open Scope Q_scope.

Lemma Qabs_inject_Z (z : Z) : Qabs (inject_Z z) = inject_Z (Z.abs z).
Proof. destruct z; reflexivity. Qed.

Lemma Q_of_f32_pow (x : f32) :
  Q_of_f32 x == inject_Z (f_m x) * (inject_Z 2) ^ (f_e x).
Proof.
  destruct x as [m e]; unfold Q_of_f32; simpl.
  destruct (0 <=? e) eqn:He.
  - apply Z.leb_le in He.
    rewrite inject_Z_mult, Zpower_Qpower by exact He. reflexivity.
  - apply Z.leb_gt in He.
    assert (Hp : (0 < 2 ^ (- e))%Z) by (apply Z.pow_pos_nonneg; lia).
    replace e with (- (- e))%Z at 2 by lia.
    rewrite Qpower_opp, <- Zpower_Qpower by lia.
    unfold Qdiv, inject_Z, Qinv, Qmult, Qeq; simpl.
    destruct (2 ^ (- e))%Z eqn:E; try lia. simpl. lia.
Qed.

Lemma round_f32_err (x : f32) :
  Qabs (Q_of_f32 (round_f32 x) - Q_of_f32 x) <= u24 * Qabs (Q_of_f32 x).
Proof.
  unfold round_f32.
  destruct (Z.abs (f_m x) <? 2 ^ 24)%Z eqn:Ha.
  - setoid_replace (Q_of_f32 x - Q_of_f32 x) with 0 by ring.
    unfold u24. simpl. apply Qmult_le_0_compat; [discriminate | apply Qabs_nonneg].
  - apply Z.ltb_ge in Ha.
    rewrite !Q_of_f32_pow.
    destruct x as [m e]; cbn [f_m f_e] in *.
    set (a := Z.abs m) in *.
    set (k := (Z.log2 a - 23)%Z).
    assert (Hk : (1 <= k)%Z).
    { unfold k. assert (24 <= Z.log2 a)%Z; [|lia].
      rewrite <- (Z.log2_pow2 24) by lia. apply Z.log2_le_mono. exact Ha. }
    assert (Hlog : (2 ^ (k + 23) <= a)%Z).
    { unfold k. replace (Z.log2 a - 23 + 23)%Z with (Z.log2 a) by lia.
      apply Z.log2_spec. lia. }
    set (r := rne_div a (2 ^ k)).
    assert (H2k : (0 < 2 ^ k)%Z) by (apply Z.pow_pos_nonneg; lia).
    assert (Hr : (2 * Z.abs (r * 2 ^ k - a) <= 2 ^ k)%Z)
      by (apply rne_div_err; lia).
    assert (Hpow : (2 ^ (k + 23) = 2 ^ k * 2 ^ 23)%Z) by (apply Z.pow_add_r; lia).
    assert (Hm0 : m <> 0%Z) by (intro; subst; unfold a in Ha; simpl in Ha; lia).
    assert (HZ : (Z.abs (Z.sgn m * r * 2 ^ k - m) * 16777216 <= Z.abs m)%Z).
    { assert (Hs : (m = Z.sgn m * a)%Z) by (unfold a; destruct m; simpl; lia).
      assert (Z.abs (Z.sgn m * r * 2 ^ k - m) = Z.abs (r * 2 ^ k - a))%Z.
      { rewrite Hs at 2. rewrite <- Z.mul_assoc, <- Z.mul_sub_distr_l, Z.abs_mul.
        assert (Hs1 : Z.abs (Z.sgn m) = 1%Z) by (destruct m; simpl; lia). rewrite Hs1; lia. }
      rewrite H. fold a. change 16777216%Z with (2 * 2 ^ 23)%Z. nia. }
    set (P := inject_Z 2 ^ e).
    assert (HP : 0 < P) by (apply Qpower_0_lt; reflexivity).
    rewrite Qpower_plus by discriminate. fold P.
    rewrite <- (Zpower_Qpower 2 k) by lia.
    setoid_replace (inject_Z (Z.sgn m * r) * (P * inject_Z (2 ^ k)) - inject_Z m * P)
      with (inject_Z (Z.sgn m * r * 2 ^ k - m) * P)
      by (unfold Z.sub; rewrite inject_Z_plus, inject_Z_opp, !inject_Z_mult; ring).
    rewrite !Qabs_Qmult, !Qabs_inject_Z, (Qabs_pos P) by (apply Qlt_le_weak; exact HP).
    rewrite Zle_Qle, inject_Z_mult in HZ.
    change (inject_Z 16777216) with (16777216 # 1) in HZ.
    unfold u24.
    setoid_replace ((1 # 16777216) * (inject_Z (Z.abs m) * P))
      with (inject_Z (Z.abs m) * (1 # 16777216) * P) by ring.
    apply Qmult_le_compat_r; [|apply Qlt_le_weak; exact HP].
    lra.
Qed.

Lemma Q_of_f32_int (n : Z) : Q_of_f32 (mk_f32 n 0) == inject_Z n.
Proof. unfold Q_of_f32; simpl. rewrite Z.mul_1_r. reflexivity. Qed.

Lemma Q_of_f32_mul_exact (x y : f32) :
  Q_of_f32 (mk_f32 (f_m x * f_m y) (f_e x + f_e y)) == Q_of_f32 x * Q_of_f32 y.
Proof.
  rewrite !Q_of_f32_pow; cbn [f_m f_e].
  rewrite inject_Z_mult, Qpower_plus by discriminate. ring.
Qed.

Lemma Q_of_f32_half_exact (x : f32) :
  Q_of_f32 (mk_f32 (f_m x) (f_e x - 1)) == Q_of_f32 x * (1 # 2).
Proof.
  rewrite !Q_of_f32_pow; cbn [f_m f_e].
  replace (f_e x - 1)%Z with (f_e x + -1)%Z by lia.
  rewrite Qpower_plus by discriminate. change (inject_Z 2 ^ (-1)) with (1 # 2). ring.
Qed.

Lemma Q_of_SPEED_OF_SOUND_F32 :
  Q_of_f32 SPEED_OF_SOUND_F32 = 9207336 # 268435456.
Proof. vm_compute. reflexivity. Qed.

Lemma round_0f_err (x : f32) :
  Qabs (inject_Z (round_0f x) - Q_of_f32 x) <= 1 # 2.
Proof.
  destruct x as [m e]. unfold round_0f, Q_of_f32; cbn [f_m f_e].
  assert (Hs : (Z.sgn m * Z.abs m = m)%Z) by (destruct m; simpl; lia).
  destruct (0 <=? e)%Z eqn:He.
  - rewrite Z.mul_assoc, Hs.
    setoid_replace (inject_Z (m * 2 ^ e) - inject_Z (m * 2 ^ e)) with 0 by ring.
    discriminate.
  - apply Z.leb_gt in He.
    set (b := (2 ^ (- e))%Z).
    assert (Hb : (0 < b)%Z) by (apply Z.pow_pos_nonneg; lia).
    set (r := rne_div (Z.abs m) b).
    assert (Hr : (2 * Z.abs (r * b - Z.abs m) <= b)%Z)
      by (apply rne_div_err; lia).
    assert (HZ : (2 * Z.abs (Z.sgn m * r * b - m) <= b)%Z).
    { replace (Z.sgn m * r * b - m)%Z with (Z.sgn m * (r * b - Z.abs m))%Z
        by (rewrite Z.mul_sub_distr_l, Hs; ring).
      rewrite Z.abs_mul.
      assert (Z.abs (Z.sgn m) <= 1)%Z by (destruct m; simpl; lia). pose proof (Z.abs_nonneg (Z.sgn m)). pose proof (Z.abs_nonneg (r * b - Z.abs m)). nia. }
    assert (Hq : (m # Z.to_pos b) == inject_Z m * / inject_Z b).
    { unfold Qeq, Qmult, Qinv, inject_Z; simpl.
      destruct b; try lia. simpl. lia. }
    rewrite Hq.
    assert (HB : 0 < inject_Z b) by (change 0 with (inject_Z 0); rewrite <- Zlt_Qlt; exact Hb).
    setoid_replace (inject_Z (Z.sgn m * r) - inject_Z m * / inject_Z b)
      with (inject_Z (Z.sgn m * r * b - m) * / inject_Z b).
    2:{ unfold Z.sub. rewrite inject_Z_plus, inject_Z_opp, !inject_Z_mult.
        field. intro E; rewrite E in HB; discriminate. }
    rewrite Qabs_Qmult, Qabs_inject_Z.
    rewrite (Qabs_pos (/ inject_Z b)) by (apply Qinv_le_0_compat; lra).
    rewrite Zle_Qle, inject_Z_mult in HZ.
    change (inject_Z 2) with (2 # 1) in HZ.
    apply Qle_shift_div_r; [exact HB|]. lra.
Qed.

Lemma distance_compose (D A P H : Q) :
  Qabs (A - D) <= u24 * Qabs D ->
  Qabs (P - A * (9207336 # 268435456)) <= u24 * Qabs (A * (9207336 # 268435456)) ->
  Qabs (H - P * (1 # 2)) <= u24 * Qabs (P * (1 # 2)) ->
  Qabs (H - D * (343 # 10000) * (1 # 2)) <=
    (1 # 1000000) * Qabs (D * (343 # 10000) * (1 # 2)).
Proof.
  intros H1 H2 H3. unfold u24 in *.
  destruct (Qlt_le_dec D 0) as [Hn | Hp].
  - rewrite (Qabs_neg D) in H1 by lra. apply Qabs_Qle_condition in H1.
    rewrite (Qabs_neg (A * _)) in H2 by lra. apply Qabs_Qle_condition in H2.
    rewrite (Qabs_neg (P * _)) in H3 by lra. apply Qabs_Qle_condition in H3.
    rewrite (Qabs_neg (D * _ * _)) by lra. apply Qabs_Qle_condition. lra.
  - rewrite (Qabs_pos D) in H1 by lra. apply Qabs_Qle_condition in H1.
    rewrite (Qabs_pos (A * _)) in H2 by lra. apply Qabs_Qle_condition in H2.
    rewrite (Qabs_pos (P * _)) in H3 by lra. apply Qabs_Qle_condition in H3.
    rewrite (Qabs_pos (D * _ * _)) by lra. apply Qabs_Qle_condition. lra.
Qed.

Lemma distance_f32_error (d : Z) :
  Qabs (Q_of_f32 (distance_f32 d) - exact_distance d) <=
    (1 # 1000000) * Qabs (exact_distance d).
Proof.
  unfold distance_f32, f32_half, f32_mul, f32_of_int, exact_distance.
  set (x0 := mk_f32 d 0).
  set (A := round_f32 x0).
  set (Pm := mk_f32 (f_m A * f_m SPEED_OF_SOUND_F32) (f_e A + f_e SPEED_OF_SOUND_F32)).
  set (P := round_f32 Pm).
  set (Hm := mk_f32 (f_m P) (f_e P - 1)).
  pose proof (round_f32_err x0) as E1. fold A in E1.
  unfold x0 in E1; rewrite Q_of_f32_int in E1.
  pose proof (round_f32_err Pm) as E2. fold P in E2.
  unfold Pm in E2; rewrite Q_of_f32_mul_exact, Q_of_SPEED_OF_SOUND_F32 in E2.
  pose proof (round_f32_err Hm) as E3.
  unfold Hm in E3; rewrite Q_of_f32_half_exact in E3.
  exact (distance_compose _ _ _ _ E1 E2 E3).
Qed.

End Float_error.

(** ** Claims *)

(** C1: when the shared state is [STATE_WAITING_FOR_ECHO], a falling edge on
    the echo pin and a run of the timeout callback, serialised in either
    order, leave that state exactly once and end in a terminal state; the
    states visited never contain both [COMPLETE] and [ERROR]. *)
Theorem race_exactly_one_terminal :
  forall (echo_first : bool) (g : system_state_t) (events tr tf : Z),
    current_state g = STATE_WAITING_FOR_ECHO ->
    Z.land events GPIO_IRQ_EDGE_FALL <> 0 ->
    let sts := map current_state (race echo_first ECHO_PIN events tr tf g) in
    exits STATE_WAITING_FOR_ECHO sts = 1%nat /\
    is_terminal (last sts STATE_IDLE) = true /\
    ~ (In STATE_MEASUREMENT_COMPLETE sts /\ In STATE_MEASUREMENT_ERROR sts).
Proof.
  intros b g ev tr tf Hst Hfall.
  destruct g as [st s e id run buf idx]; simpl in Hst; subst st.
  unfold race, echo_callback, timeout_callback.
  rewrite Z.eqb_refl.
  destruct (Z.land ev GPIO_IRQ_EDGE_FALL =? 0) eqn:Ef;
    [apply Z.eqb_eq in Ef; contradiction |].
  destruct (Z.land ev GPIO_IRQ_EDGE_RISE =? 0); destruct b; simpl;
    repeat split; try reflexivity; intros [H1 H2];
    repeat (destruct H1 as [H1 | H1]; try discriminate);
    repeat (destruct H2 as [H2 | H2]; try discriminate); auto.
Qed.

(** Witness: both orders from a waiting state with a plain falling edge. *)
Lemma race_exactly_one_terminal_witness :
  let g := set_current_state STATE_WAITING_FOR_ECHO g_state_init in
  current_state g = STATE_WAITING_FOR_ECHO /\ Z.land 4 GPIO_IRQ_EDGE_FALL <> 0 /\
  (exits STATE_WAITING_FOR_ECHO
     (map current_state (race true ECHO_PIN 4 100 700 g)) = 1%nat /\
   exits STATE_WAITING_FOR_ECHO
     (map current_state (race false ECHO_PIN 4 100 700 g)) = 1%nat).
Proof.
  intro g. split; [reflexivity |]. split; [vm_compute; discriminate |]. split.
  - apply (race_exactly_one_terminal true g 4 100 700); [reflexivity | vm_compute; discriminate].
  - apply (race_exactly_one_terminal false g 4 100 700); [reflexivity | vm_compute; discriminate].
Defined.

(** C2: a falling edge on the echo pin always records [echo_end_time];
    it cancels [measurement_alarm_id] and moves to [COMPLETE] exactly when
    the state is [STATE_WAITING_FOR_ECHO], and otherwise leaves the state
    unchanged and cancels nothing. *)
Theorem echo_fall_spec :
  forall (g : system_state_t) (events tr tf : Z),
    Z.land events GPIO_IRQ_EDGE_FALL <> 0 ->
    let '(g', effs) := echo_callback ECHO_PIN events tr tf g in
    echo_end_time g' = tf /\
    (current_state g = STATE_WAITING_FOR_ECHO ->
       current_state g' = STATE_MEASUREMENT_COMPLETE /\
       effs = [ECancelAlarm (measurement_alarm_id g)]) /\
    (current_state g <> STATE_WAITING_FOR_ECHO ->
       current_state g' = current_state g /\ effs = []).
Proof.
  intros g ev tr tf Hfall.
  unfold echo_callback. rewrite Z.eqb_refl.
  destruct (Z.land ev GPIO_IRQ_EDGE_FALL =? 0) eqn:Ef;
    [apply Z.eqb_eq in Ef; contradiction |].
  destruct g as [st s e id run buf idx].
  destruct (Z.land ev GPIO_IRQ_EDGE_RISE =? 0); state_cases st;
    repeat split; try reflexivity; try congruence; intros H; congruence.
Qed.

Lemma echo_fall_spec_witness :
  Z.land 4 GPIO_IRQ_EDGE_FALL <> 0 /\
  (let '(g', effs) := echo_callback ECHO_PIN 4 0 700
                        (set_current_state STATE_MEASUREMENT_ERROR g_state_init) in
   echo_end_time g' = 700 /\
   (current_state (set_current_state STATE_MEASUREMENT_ERROR g_state_init)
      = STATE_WAITING_FOR_ECHO ->
    current_state g' = STATE_MEASUREMENT_COMPLETE /\
    effs = [ECancelAlarm (measurement_alarm_id
                            (set_current_state STATE_MEASUREMENT_ERROR g_state_init))]) /\
   (current_state (set_current_state STATE_MEASUREMENT_ERROR g_state_init)
      <> STATE_WAITING_FOR_ECHO ->
    current_state g' = current_state (set_current_state STATE_MEASUREMENT_ERROR g_state_init)
    /\ effs = [])).
Proof.
  split; [vm_compute; discriminate |].
  apply (echo_fall_spec (set_current_state STATE_MEASUREMENT_ERROR g_state_init) 4 0 700).
  vm_compute; discriminate.
Defined.

(** C3: the timeout callback moves [STATE_WAITING_FOR_ECHO] to [ERROR] and
    changes nothing in any other state. *)
Theorem timeout_callback_spec :
  forall g : system_state_t,
    (current_state g = STATE_WAITING_FOR_ECHO /\
     timeout_callback g = set_current_state STATE_MEASUREMENT_ERROR g) \/
    (current_state g <> STATE_WAITING_FOR_ECHO /\ timeout_callback g = g).
Proof.
  intros [st s e id run buf idx]; unfold timeout_callback; simpl.
  state_cases st; [right | left | right | right]; split; congruence.
Qed.

(** C4: single flight.  A step emits the trigger pulse only at the trigger
    test of line 171 with [system_running] set and the state [IDLE]; and a
    loop iteration that starts in a non-idle state (whatever the interrupts
    do meanwhile) emits no trigger pulse and arms no alarm. *)
Theorem single_flight :
  (forall m l m' effs,
     step m l = Some (m', effs) -> In (EGpioPut TRIGGER_PIN 1) effs ->
     pc m = PC_Trigger /\ system_running (g_state m) = true /\
     current_state (g_state m) = STATE_IDLE) /\
  (forall m ls m' effs,
     pc m = PC_Top -> current_state (g_state m) <> STATE_IDLE ->
     run_iter m ls = Some (m', effs) ->
     Forall (fun e => starts_cycle e = false) effs).
Proof.
  split.
  - intros m l m' effs H Hin.
    destruct (is_fg l) eqn:Hl.
    + destruct l as [inp h mi s | |]; [| discriminate | discriminate].
      fg_cases H.
      * destruct inp as [c|]; [| inversion H; subst; contradiction].
        destruct (process_char c _) as [[[g' e] k]|] eqn:E; [| discriminate].
        destruct (process_char_frame _ _ _ _ _ E) as [_ [Hs _]].
        inversion H; subst. rewrite Forall_forall in Hs.
        specialize (Hs _ Hin); discriminate.
      * destruct run; state_cases st; inversion H; subst; simpl in *; auto;
          contradiction.
      * inversion H; subst; contradiction.
      * inversion H; subst; simpl in Hin; intuition discriminate.
      * des_if H; inversion H; subst; contradiction.
      * inversion H; subst; simpl in Hin; intuition discriminate.
      * des_if H; inversion H; subst; simpl in Hin; intuition discriminate.
      * inversion H; subst; simpl in Hin; intuition discriminate.
    + destruct (isr_step_spec m l m' effs Hl H) as [_ [Hc _]].
      rewrite Forall_forall in Hc. destruct (Hc _ Hin) as [id Hid]; discriminate.
  - intros m ls m' effs Hpc Hst H.
    eapply iteration_no_start; [| exact H]. left; split; [left |]; assumption.
Qed.

Lemma single_flight_witness :
  (step (m_at PC_Trigger STATE_IDLE) F0 =
     Some (m_at PC_SetWait STATE_IDLE, send_trigger_pulse) /\
   pc (m_at PC_Trigger STATE_IDLE) = PC_Trigger /\
   system_running (g_state (m_at PC_Trigger STATE_IDLE)) = true /\
   current_state (g_state (m_at PC_Trigger STATE_IDLE)) = STATE_IDLE) /\
  (run_iter (m_at PC_Top STATE_WAITING_FOR_ECHO) [F0; F0; F0; F0] =
     Some (m_at PC_Top STATE_WAITING_FOR_ECHO, [ESleepMs 10]) /\
   Forall (fun e => starts_cycle e = false) [ESleepMs 10]).
Proof.
  assert (H1 : step (m_at PC_Trigger STATE_IDLE) F0 =
                 Some (m_at PC_SetWait STATE_IDLE, send_trigger_pulse))
    by reflexivity.
  assert (H2 : run_iter (m_at PC_Top STATE_WAITING_FOR_ECHO) [F0; F0; F0; F0] =
                 Some (m_at PC_Top STATE_WAITING_FOR_ECHO, [ESleepMs 10]))
    by reflexivity.
  split; [split; [exact H1 |] | split; [exact H2 |]].
  - apply (proj1 single_flight _ _ _ _ H1). simpl; auto.
  - apply (proj2 single_flight (m_at PC_Top STATE_WAITING_FOR_ECHO) [F0; F0; F0; F0]
             (m_at PC_Top STATE_WAITING_FOR_ECHO) [ESleepMs 10]);
      [reflexivity | discriminate | exact H2].
Defined.

(** C5: every transition from [IDLE] to [WAITING] in a run that starts at
    the top of the loop is the foreground step of line 174; the foreground
    step just before it drove the trigger pin high, slept 10 us and drove it
    low, and the foreground step just after it (when the run goes on) arms
    an alarm of 30000 us. *)
Theorem cycle_start_effects :
  forall m ls m' tr r,
    pc m = PC_Top -> exec m ls = Some (m', tr) -> In r tr ->
    current_state (g_state (r_pre r)) = STATE_IDLE ->
    current_state (g_state (r_post r)) = STATE_WAITING_FOR_ECHO ->
    exists k rp,
      nth_error (fg_recs tr) k = Some rp /\
      nth_error (fg_recs tr) (S k) = Some r /\
      r_effs rp = [EGpioPut TRIGGER_PIN 1; ESleepUs 10; EGpioPut TRIGGER_PIN 0] /\
      r_effs r = [] /\
      (forall ra, nth_error (fg_recs tr) (S (S k)) = Some ra ->
                  r_effs ra = [EAddAlarm 30000]).
Proof.
  intros m ls m' tr r Hpc Hex Hin H1 H2.
  pose proof (exec_valid _ _ _ _ Hex) as Hv. rewrite Forall_forall in Hv.
  pose proof (exec_chain _ _ _ _ Hex) as Hc.
  destruct (step_into_waiting _ _ _ _ (Hv r Hin) H1 H2) as [Hfg [Hp [Hp' He]]].
  assert (Hinf : In r (fg_recs tr)) by (apply filter_In; auto).
  destruct (In_nth_error _ _ Hinf) as [j Hj].
  destruct j as [| k].
  - rewrite (pc_chain_first _ _ _ Hc Hj) in Hp. rewrite Hpc in Hp; discriminate.
  - destruct (nth_error (fg_recs tr) k) as [rp|] eqn:Ek.
    2:{ apply nth_error_None in Ek.
        assert (nth_error (fg_recs tr) (S k) <> None) by congruence.
        apply nth_error_Some in H. lia. }
    assert (Hrp : In rp (fg_recs tr)) by (eapply nth_error_In; eauto).
    apply filter_In in Hrp as [Hrp Hfgp].
    pose proof (pc_chain_next _ _ _ _ _ Hc Ek Hj) as Hlink.
    rewrite Hp in Hlink.
    destruct (fg_step_to_setwait _ _ _ _ Hfgp (Hv rp Hrp) (eq_sym Hlink))
      as [_ [Hpulse _]].
    exists k, rp. repeat split; auto.
    intros ra Ha.
    assert (Hra : In ra (fg_recs tr)) by (eapply nth_error_In; eauto).
    apply filter_In in Hra as [Hra Hfga].
    pose proof (pc_chain_next _ _ _ _ _ Hc Hj Ha) as Hlink2.
    rewrite Hp' in Hlink2.
    exact (fg_step_at_arm _ _ _ _ Hfga (Hv ra Hra) Hlink2).
Qed.

Lemma cycle_start_effects_witness :
  exec m_running [F0; F0; F0] = Some (m_at PC_Arm STATE_WAITING_FOR_ECHO, trace_first_trigger) /\
  exists k rp,
    nth_error (fg_recs trace_first_trigger) k = Some rp /\
    nth_error (fg_recs trace_first_trigger) (S k) =
      Some (mk_rec (m_at PC_SetWait STATE_IDLE) F0 (m_at PC_Arm STATE_WAITING_FOR_ECHO) []) /\
    r_effs rp = [EGpioPut TRIGGER_PIN 1; ESleepUs 10; EGpioPut TRIGGER_PIN 0] /\
    r_effs (mk_rec (m_at PC_SetWait STATE_IDLE) F0 (m_at PC_Arm STATE_WAITING_FOR_ECHO) []) = [] /\
    (forall ra, nth_error (fg_recs trace_first_trigger) (S (S k)) = Some ra ->
                r_effs ra = [EAddAlarm 30000]).
Proof.
  assert (He : exec m_running [F0; F0; F0] =
                 Some (m_at PC_Arm STATE_WAITING_FOR_ECHO, trace_first_trigger))
    by reflexivity.
  split; [exact He |].
  apply (cycle_start_effects m_running [F0; F0; F0] (m_at PC_Arm STATE_WAITING_FOR_ECHO)
           trace_first_trigger
           (mk_rec (m_at PC_SetWait STATE_IDLE) F0 (m_at PC_Arm STATE_WAITING_FOR_ECHO) []));
    [reflexivity | exact He | simpl; auto | reflexivity | reflexivity].
Defined.

(** C6, as stated, fails: nothing clears the timestamps when a cycle
    starts.  In this run the first cycle records a rising edge at 100 us and
    a falling edge at 700 us; the second cycle gets only a falling edge, at
    1000700 us, and reaches [COMPLETE] with the first cycle's start
    timestamp, which the result line then uses. *)
Lemma stale_start_timestamp :
  match exec m_running two_cycles with
  | Some (m', tr) =>
      cycles_started tr = 2%nat /\
      current_state (g_state m') = STATE_MEASUREMENT_COMPLETE /\
      echo_start_time (g_state m') = 100 /\
      echo_end_time (g_state m') = 1000700 /\
      report_line (g_state m') 10 0 0 =
        ok_line 10 0 0 (fmt_0f (distance_f32 (1000700 - 100)))
  | None => False
  end.
Proof. vm_compute. repeat split. Qed.

(** No foreground step writes the timestamps; a step entering [COMPLETE] is
    a falling edge, which recorded the end timestamp; only a rising edge
    changes the start timestamp. *)
Lemma timestamps_step_frame :
  forall m l m' effs,
    step m l = Some (m', effs) ->
    (is_fg l = true ->
       echo_start_time (g_state m') = echo_start_time (g_state m) /\
       echo_end_time (g_state m') = echo_end_time (g_state m)) /\
    (current_state (g_state m) <> STATE_MEASUREMENT_COMPLETE ->
     current_state (g_state m') = STATE_MEASUREMENT_COMPLETE ->
       exists events tr tf, l = LEcho ECHO_PIN events tr tf /\
         Z.land events GPIO_IRQ_EDGE_FALL <> 0 /\
         echo_end_time (g_state m') = tf) /\
    (echo_start_time (g_state m') <> echo_start_time (g_state m) ->
       exists events tr tf, l = LEcho ECHO_PIN events tr tf /\
         Z.land events GPIO_IRQ_EDGE_RISE <> 0 /\
         echo_start_time (g_state m') = tr).
Proof.
  intros m l m' effs H.
  destruct l as [inp h mi s | gpio ev tr tf | id].
  - assert (Hfr : echo_start_time (g_state m') = echo_start_time (g_state m) /\
                  echo_end_time (g_state m') = echo_end_time (g_state m) /\
                  (current_state (g_state m') = STATE_MEASUREMENT_COMPLETE ->
                   current_state (g_state m) = STATE_MEASUREMENT_COMPLETE)).
    { fg_cases H.
      - destruct inp as [c|]; [| inversion H; subst; simpl; auto].
        destruct (process_char c _) as [[[g' e] k]|] eqn:E; [| discriminate].
        destruct (process_char_frame _ _ _ _ _ E) as [[r [b [i Hg]]] _].
        subst g'; inversion H; subst; simpl; auto.
      - des_if H; inversion H; subst; simpl; auto.
      - inversion H; subst; simpl; repeat split; auto; discriminate.
      - inversion H; subst; simpl; auto.
      - des_if H; inversion H; subst; simpl; auto.
      - inversion H; subst; simpl; auto.
      - inversion H; subst; simpl; repeat split; auto; discriminate.
      - inversion H; subst; simpl; auto. }
    destruct Hfr as [Hs [He Hc]].
    split; [intros _; auto |]. split.
    + intros Hn Hc'. exfalso; auto.
    + intros Hn. contradiction.
  - simpl in H. unfold echo_callback in H.
    destruct (gpio =? ECHO_PIN) eqn:Eg.
    2:{ inversion H; subst; simpl. split; [discriminate |]. split; intros; congruence. }
    apply Z.eqb_eq in Eg; subst gpio.
    destruct m as [[st ts te aid run buf idx] p pd nid]; simpl in *.
    destruct (Z.land ev GPIO_IRQ_EDGE_RISE =? 0) eqn:Er;
      destruct (Z.land ev GPIO_IRQ_EDGE_FALL =? 0) eqn:Ef;
      apply Z.eqb_neq in Er || apply Z.eqb_eq in Er;
      apply Z.eqb_neq in Ef || apply Z.eqb_eq in Ef;
      state_cases st; inversion H; subst; simpl;
      (split; [discriminate |]);
      split; intros; try congruence; do 3 eexists; eauto.
  - simpl in H. destruct (existsb (fun x => x =? id) (pending m)).
    + inversion H; subst; simpl.
      destruct m as [[st ts te aid run buf idx] p pd nid]; unfold timeout_callback; simpl.
      split; [discriminate |]. state_cases st; split; intros; congruence.
    + inversion H; subst. split; [discriminate |]. split; intros; congruence.
Qed.

(** How each step writes the timestamps. *)
Lemma timestamps_step_update :
  forall m l m' effs,
    step m l = Some (m', effs) ->
    (forall id, l = LAlarm id ->
       echo_start_time (g_state m') = echo_start_time (g_state m) /\
       echo_end_time (g_state m') = echo_end_time (g_state m)) /\
    (forall gpio events tr tf, l = LEcho gpio events tr tf ->
       echo_start_time (g_state m') =
         (if (gpio =? ECHO_PIN) && negb (Z.land events GPIO_IRQ_EDGE_RISE =? 0)
          then tr else echo_start_time (g_state m)) /\
       echo_end_time (g_state m') =
         (if (gpio =? ECHO_PIN) && negb (Z.land events GPIO_IRQ_EDGE_FALL =? 0)
          then tf else echo_end_time (g_state m))).
Proof.
  intros m l m' effs H. split.
  - intros id ->. simpl in H.
    destruct (existsb (fun x => x =? id) (pending m)); inversion H; subst; simpl; [| auto].
    unfold timeout_callback. destruct (state_eqb _ _); simpl; auto.
  - intros gpio ev tr tf ->. simpl in H.
    destruct (echo_callback gpio ev tr tf (g_state m)) as [g' e] eqn:E.
    inversion H; subst; simpl. unfold echo_callback in E.
    destruct (gpio =? ECHO_PIN); simpl; [| inversion E; auto].
    destruct (Z.land ev GPIO_IRQ_EDGE_RISE =? 0); destruct (Z.land ev GPIO_IRQ_EDGE_FALL =? 0);
      simpl in E |- *;
      try (destruct (state_eqb _ STATE_WAITING_FOR_ECHO) in E);
      inversion E; subst; simpl; auto.
Qed.

(** C6 (amended): no foreground step writes the timestamps, so starting a
    cycle keeps the previous ones; a step that enters [COMPLETE] is a
    falling-edge interrupt and the end timestamp is the one it recorded; the
    start timestamp changes only by a rising-edge interrupt, which records
    its own time.  The alarm leaves both alone, and every interrupt on the
    echo pin records its edges in any state, [COMPLETE] included: a rising
    edge overwrites the start timestamp and a falling edge the end one. *)
Theorem timestamps_kept_across_cycles :
  forall m l m' effs,
    step m l = Some (m', effs) ->
    (is_fg l = true ->
       echo_start_time (g_state m') = echo_start_time (g_state m) /\
       echo_end_time (g_state m') = echo_end_time (g_state m)) /\
    (current_state (g_state m) <> STATE_MEASUREMENT_COMPLETE ->
     current_state (g_state m') = STATE_MEASUREMENT_COMPLETE ->
       exists events tr tf, l = LEcho ECHO_PIN events tr tf /\
         Z.land events GPIO_IRQ_EDGE_FALL <> 0 /\
         echo_end_time (g_state m') = tf) /\
    (echo_start_time (g_state m') <> echo_start_time (g_state m) ->
       exists events tr tf, l = LEcho ECHO_PIN events tr tf /\
         Z.land events GPIO_IRQ_EDGE_RISE <> 0 /\
         echo_start_time (g_state m') = tr) /\
    (forall id, l = LAlarm id ->
       echo_start_time (g_state m') = echo_start_time (g_state m) /\
       echo_end_time (g_state m') = echo_end_time (g_state m)) /\
    (forall gpio events tr tf, l = LEcho gpio events tr tf ->
       echo_start_time (g_state m') =
         (if (gpio =? ECHO_PIN) && negb (Z.land events GPIO_IRQ_EDGE_RISE =? 0)
          then tr else echo_start_time (g_state m)) /\
       echo_end_time (g_state m') =
         (if (gpio =? ECHO_PIN) && negb (Z.land events GPIO_IRQ_EDGE_FALL =? 0)
          then tf else echo_end_time (g_state m))).
Proof.
  intros m l m' effs H.
  destruct (timestamps_step_frame m l m' effs H) as [A [B C]].
  destruct (timestamps_step_update m l m' effs H) as [D E].
  exact (conj A (conj B (conj C (conj D E)))).
Qed.

Lemma timestamps_kept_across_cycles_witness :
  step (m_at PC_Check STATE_WAITING_FOR_ECHO) (LEcho ECHO_PIN GPIO_IRQ_EDGE_FALL 0 700) =
    Some (mk_machine (set_echo_end_time 700
            (set_current_state STATE_MEASUREMENT_COMPLETE (set_system_running true g_state_init)))
            PC_Check [] 1, [ECancelAlarm 0]) /\
  exists events tr tf, LEcho ECHO_PIN GPIO_IRQ_EDGE_FALL 0 700 = LEcho ECHO_PIN events tr tf /\
    Z.land events GPIO_IRQ_EDGE_FALL <> 0 /\ 700 = tf /\
  (forall m' effs,
     step (mk_machine g_complete_600 PC_Report [] 1) (LEcho ECHO_PIN GPIO_IRQ_EDGE_FALL 900 900) =
       Some (m', effs) ->
     current_state (g_state m') = STATE_MEASUREMENT_COMPLETE /\ echo_end_time (g_state m') = 900).
Proof.
  assert (H : step (m_at PC_Check STATE_WAITING_FOR_ECHO) (LEcho ECHO_PIN GPIO_IRQ_EDGE_FALL 0 700) =
    Some (mk_machine (set_echo_end_time 700
            (set_current_state STATE_MEASUREMENT_COMPLETE (set_system_running true g_state_init)))
            PC_Check [] 1, [ECancelAlarm 0])) by reflexivity.
  split; [exact H |].
  destruct (proj1 (proj2 (timestamps_kept_across_cycles _ _ _ _ H)))
    as [ev [tr [tf [Hl [Hf Ht]]]]]; [discriminate | reflexivity |].
  exists ev, tr, tf. split; [exact Hl |]. split; [exact Hf |]. split; [exact Ht |].
  intros m' effs H2. split; [inversion H2; reflexivity |].
  exact (proj2 (proj2 (proj2 (proj2 (proj2 (timestamps_kept_across_cycles _ _ _ _ H2))))
                 ECHO_PIN GPIO_IRQ_EDGE_FALL 900 900 eq_refl)).
Defined.

(** C7, as stated, fails: the result line does not carry the distance but
    its value rounded to whole centimetres ([%.0f], line 191).  For a rising
    edge at 100 us and a falling edge at 700 us the exact distance is
    10.29 cm, and the line printed reads [10 cm]. *)
Lemma distance_report_whole_cm :
  report_line g_complete_600 10 0 5 = ok_line 10 0 5 "10"%string /\
  exact_distance (absolute_time_diff_us 100 700) == 1029 # 100 /\
  ~ (inject_Z (round_0f (distance_f32 (absolute_time_diff_us 100 700))) ==
     exact_distance (absolute_time_diff_us 100 700)).
Proof.
  split; [vm_compute; reflexivity|].
  split; [vm_compute; reflexivity|].
  vm_compute. discriminate.
Qed.

(** C7 (amended): for a completed cycle the result line prints
    [distance_f32 d], with [d] the 64-bit signed difference of the
    timestamps, through [%.0f]; that single-precision value is within a
    relative error of [1e-6] of [d * 0.0343 / 2] (so it has the sign of
    [d] and is never clamped), and the printed integer is within [1/2] of
    it.  A 600 us echo is printed as [10]. *)
Theorem distance_float_spec (g : system_state_t) (h mi s : Z) :
  current_state g = STATE_MEASUREMENT_COMPLETE ->
  report_line g h mi s =
    ok_line h mi s (fmt_0f (distance_f32
      (absolute_time_diff_us (echo_start_time g) (echo_end_time g)))) /\
  absolute_time_diff_us (echo_start_time g) (echo_end_time g) =
    wrap_s64 (echo_end_time g - echo_start_time g) /\
  (Qabs (Q_of_f32 (distance_f32
      (absolute_time_diff_us (echo_start_time g) (echo_end_time g))) -
    exact_distance (absolute_time_diff_us (echo_start_time g) (echo_end_time g))) <=
   (1 # 1000000) *
   Qabs (exact_distance (absolute_time_diff_us (echo_start_time g) (echo_end_time g))))%Q /\
  (Qabs (inject_Z (round_0f (distance_f32
      (absolute_time_diff_us (echo_start_time g) (echo_end_time g)))) -
    Q_of_f32 (distance_f32
      (absolute_time_diff_us (echo_start_time g) (echo_end_time g)))) <= 1 # 2)%Q /\
  fmt_0f (distance_f32 600) = "10"%string.
Proof.
  intros Hc. split; [|split; [reflexivity|split; [|split]]].
  - unfold report_line. rewrite Hc. reflexivity.
  - apply distance_f32_error.
  - apply round_0f_err.
  - vm_compute. reflexivity.
Qed.

Lemma distance_float_spec_witness :
  current_state g_complete_600 = STATE_MEASUREMENT_COMPLETE /\
  report_line g_complete_600 10 0 5 = ok_line 10 0 5 (fmt_0f (distance_f32 600)).
Proof.
  split; [reflexivity|].
  exact (proj1 (distance_float_spec g_complete_600 10 0 5 eq_refl)).
Defined.

(** C8: from the test of line 179 the loop body always runs to its end
    (nothing aborts), and a completed rest of the iteration prints either no
    result line, when the state was not terminal, or exactly one: a distance
    line [HH:MM:SS - <value> cm] for [COMPLETE] or a [Falha] line for
    [ERROR]; the state reported is the one at the test or reached from
    [WAITING] meanwhile, and the state is then [IDLE]. *)
Theorem one_report_per_terminal_state :
  forall m, pc m = PC_Check ->
    (exists m' effs, run_iter m [F0; F0; F0; F0] = Some (m', effs) /\ pc m' = PC_Top) /\
    (forall ls m' effs,
       run_iter m ls = Some (m', effs) -> pc m' = PC_Top ->
       (report_lines effs = [] /\ is_terminal (current_state (g_state m)) = false) \/
       (exists st_r line, report_lines effs = [line] /\ report_ok st_r line /\
          (st_r = current_state (g_state m) \/
           current_state (g_state m) = STATE_WAITING_FOR_ECHO) /\
          current_state (g_state m') = STATE_IDLE)).
Proof.
  intros m Hp. split.
  - exact (iter_from_check_completes m Hp).
  - intros ls m' effs H Ht. exact (iter_from_check ls m m' effs Hp H Ht).
Qed.

Lemma one_report_per_terminal_state_witness :
  pc (m_at PC_Check STATE_MEASUREMENT_ERROR) = PC_Check /\
  exists m' effs,
    run_iter (m_at PC_Check STATE_MEASUREMENT_ERROR) [F0; F0; F0; F0] = Some (m', effs) /\
    pc m' = PC_Top.
Proof.
  split; [reflexivity |].
  exact (proj1 (one_report_per_terminal_state (m_at PC_Check STATE_MEASUREMENT_ERROR) eq_refl)).
Defined.

(** C9: the [stop] command changes only the run flag, the command buffer and
    its index; neither interrupt handler reads the run flag; and with the
    run flag cleared, a terminal state found at line 179 is still reported
    exactly once and reset to [IDLE]. *)
Theorem stop_only_clears_run_flag :
  (forall g c,
     (c = 10 \/ c = 13) -> cmd_index g = 4 ->
     firstn 4 (cmd_buffer g) = codes "stop" ->
     Z.of_nat (List.length (cmd_buffer g)) = CMD_BUFFER_SIZE ->
     exists msg, process_char c g =
       Some (mk_system_state (current_state g) (echo_start_time g) (echo_end_time g)
               (measurement_alarm_id g) false (repeat 0 (Z.to_nat CMD_BUFFER_SIZE)) 0,
             [EPutchar c; EPrint msg], false)) /\
  (forall g b gpio events tr tf,
     echo_callback gpio events tr tf (set_system_running b g) =
       (set_system_running b (fst (echo_callback gpio events tr tf g)),
        snd (echo_callback gpio events tr tf g))) /\
  (forall g b,
     timeout_callback (set_system_running b g) = set_system_running b (timeout_callback g)) /\
  (forall m ls m' effs,
     pc m = PC_Check -> system_running (g_state m) = false ->
     is_terminal (current_state (g_state m)) = true ->
     run_iter m ls = Some (m', effs) -> pc m' = PC_Top ->
     exists line, report_lines effs = [line] /\
       report_ok (current_state (g_state m)) line /\
       current_state (g_state m') = STATE_IDLE).
Proof.
  split; [| split; [| split]].
  - intros [st ts te aid run buf idx] c Hc Hi Hb Hl; simpl in *; subst idx.
    destruct buf as [| a1 [| a2 [| a3 [| a4 [| a5 rest]]]]]; simpl in Hb, Hl;
      try discriminate.
    inversion Hb; subst.
    unfold process_char, store; simpl.
    destruct Hc as [-> | ->]; simpl; rewrite Hl; simpl; eexists; reflexivity.
  - intros [st ts te aid run buf idx] b gpio ev tr tf; unfold echo_callback; simpl.
    destruct (gpio =? ECHO_PIN); [| reflexivity].
    destruct (Z.land ev GPIO_IRQ_EDGE_RISE =? 0); destruct (Z.land ev GPIO_IRQ_EDGE_FALL =? 0);
      state_cases st; reflexivity.
  - intros [st ts te aid run buf idx] b; unfold timeout_callback; simpl.
    state_cases st; reflexivity.
  - intros m ls m' effs Hp _ Hterm H Ht.
    destruct (iter_from_check ls m m' effs Hp H Ht)
      as [[_ Hn] | [st_r [line [Hr [Hok [Hor Hi]]]]]]; [congruence |].
    exists line. split; [exact Hr |]. split; [| exact Hi].
    destruct Hor as [<- | Hw]; [exact Hok |].
    rewrite Hw in Hterm; discriminate.
Qed.

Lemma stop_only_clears_run_flag_witness :
  exists msg,
    process_char 10 (set_cmd_index 4 (set_cmd_buffer (codes "stop" ++ repeat 0 60)
                                        (set_system_running true g_state_init))) =
    Some (g_state_init, [EPutchar 10; EPrint msg], false).
Proof.
  apply (proj1 stop_only_clears_run_flag
           (set_cmd_index 4 (set_cmd_buffer (codes "stop" ++ repeat 0 60)
                               (set_system_running true g_state_init))) 10);
    [left; reflexivity | reflexivity | reflexivity | reflexivity].
Defined.

(** C10: from a well-formed command buffer, every sequence of characters is
    processed without an out-of-bounds store and leaves the index in
    [[0, CMD_BUFFER_SIZE - 1]]; the terminator store of a non-empty line is
    in bounds; an empty line changes nothing and skips the rest of the loop
    body; a character arriving with the buffer full is dropped. *)
Theorem cmd_buffer_in_bounds :
  forall g, cmd_wf g ->
    (forall cs, exists g', process_chars cs g = Some g' /\ cmd_wf g') /\
    (forall c, (c = 10 \/ c = 13) -> cmd_index g <> 0 ->
       store (cmd_buffer g) (cmd_index g) 0 <> None) /\
    (forall c, (c = 10 \/ c = 13) -> cmd_index g = 0 ->
       process_char c g = Some (g, [EPutchar c], true)) /\
    (forall c, c <> 10 -> c <> 13 -> cmd_index g = CMD_BUFFER_SIZE - 1 ->
       process_char c g = Some (g, [EPutchar c], false)).
Proof.
  intros g Hwf. split; [| split; [| split]].
  - intros cs. revert g Hwf. induction cs as [| c cs IH]; intros g Hwf.
    + exists g; split; [reflexivity | exact Hwf].
    + destruct (process_char_wf c g Hwf) as [g' [e [k [Hp Hw']]]].
      simpl; rewrite Hp. exact (IH g' Hw').
  - intros c _ Hn. destruct Hwf as [Hi Hl].
    rewrite store_in_bounds by lia. discriminate.
  - intros c Hc H0. unfold process_char. rewrite H0.
    destruct Hc as [-> | ->]; reflexivity.
  - intros c H10 H13 Hfull. unfold process_char. rewrite Hfull.
    apply Z.eqb_neq in H10; apply Z.eqb_neq in H13. rewrite H10, H13. reflexivity.
Qed.

Lemma cmd_buffer_in_bounds_witness :
  cmd_wf g_state_init /\
  exists g', process_chars (codes "start" ++ [10]) g_state_init = Some g' /\ cmd_wf g'.
Proof.
  assert (H : cmd_wf g_state_init) by (unfold cmd_wf; simpl; split; [lia | reflexivity]).
  split; [exact H |].
  exact (proj1 (cmd_buffer_in_bounds g_state_init H) (codes "start" ++ [10])).
Defined.

(** ** Further properties *)

(** The command line of part_001. *)

Lemma list_set_app_repeat (p : list Z) (n : nat) (c : Z) :
  list_set (p ++ 0 :: repeat 0 n) (List.length p) c = (p ++ [c]) ++ repeat 0 n.
Proof. induction p as [| x p IH]; simpl; [reflexivity | now rewrite IH]. Qed.

Lemma c_string_app_nul (q r : list Z) : c_string (q ++ 0 :: r) = c_string q.
Proof.
  induction q as [| x q IH]; simpl; [reflexivity|].
  destruct (x =? 0); [reflexivity | now rewrite IH].
Qed.

Lemma firstn_full_app {A} (p w : list A) (n : nat) :
  List.length p = n -> firstn n (p ++ w) = p.
Proof. intros <-. rewrite firstn_app, firstn_all, Nat.sub_diag. simpl. apply app_nil_r. Qed.

Lemma feed_chars (w p : list Z) (g : system_state_t) :
  Forall (fun c => c <> 10 /\ c <> 13) w ->
  (List.length p <= 63)%nat ->
  cmd_buffer g = p ++ repeat 0 (64 - List.length p) ->
  cmd_index g = Z.of_nat (List.length p) ->
  let q := firstn 63 (p ++ w) in
  feed w g = Some (set_cmd_index (Z.of_nat (List.length q))
                     (set_cmd_buffer (q ++ repeat 0 (64 - List.length q)) g),
                   map EPutchar w).
Proof.
  revert p g. induction w as [| c w IH]; intros p g Hw Hp Hb Hi q.
  - unfold q. rewrite app_nil_r, firstn_all2 by lia. simpl.
    destruct g; simpl in *. subst. reflexivity.
  - inversion Hw as [| ? ? [H10 H13] Hw']; subst.
    simpl feed. unfold process_char.
    replace ((c =? 13) || (c =? 10)) with false
      by (symmetry; apply orb_false_iff; split; apply Z.eqb_neq; assumption).
    unfold CMD_BUFFER_SIZE. rewrite Hi.
    destruct (Z.of_nat (List.length p) <? 64 - 1) eqn:Hlt.
    + apply Z.ltb_lt in Hlt.
      rewrite store_in_bounds by (rewrite Hb, length_app, repeat_length; lia).
      rewrite Hb, Nat2Z.id.
      replace (64 - List.length p)%nat with (S (63 - List.length p)) by lia.
      change (repeat 0 (S (63 - List.length p))) with (0 :: repeat 0 (63 - List.length p)). rewrite list_set_app_repeat.
      rewrite (IH (p ++ [c])).
      * unfold q. rewrite <- app_assoc. simpl. destruct g; reflexivity.
      * exact Hw'.
      * rewrite length_app. simpl. lia.
      * cbn [cmd_buffer set_cmd_index set_cmd_buffer]. rewrite length_app. replace (64 - (List.length p + List.length [c]))%nat with (63 - List.length p)%nat by (change (List.length [c]) with 1%nat; lia). reflexivity.
      * simpl. rewrite length_app, Nat2Z.inj_add. simpl. lia.
    + apply Z.ltb_ge in Hlt.
      rewrite (IH p); auto.
      unfold q. rewrite !firstn_full_app by lia. reflexivity.
Qed.

Lemma feed_app (a b : list Z) (g : system_state_t) :
  feed (a ++ b) g =
  match feed a g with
  | None => None
  | Some (g1, e1) =>
      match feed b g1 with
      | None => None
      | Some (g2, e2) => Some (g2, e1 ++ e2)
      end
  end.
Proof.
  revert g. induction a as [| c a IH]; intros g; simpl.
  - destruct (feed b g) as [[? ?]|]; reflexivity.
  - destruct (process_char c g) as [[[g' e] k]|]; [|reflexivity].
    rewrite IH. destruct (feed a g') as [[g1 e1]|]; [|reflexivity].
    destruct (feed b g1) as [[g2 e2]|]; [|reflexivity].
    now rewrite app_assoc.
Qed.

(** A line [w] typed on an empty command buffer and ended by a carriage
    return: every character is echoed, the command compared is what the
    63 stored characters hold up to the first NUL, [start] and [stop] set
    or clear the run flag and print their message, anything else prints it
    back as unknown, and the buffer ends empty. *)
Theorem command_line_effect (g : system_state_t) (w : list Z) :
  cmd_index g = 0 ->
  cmd_buffer g = repeat 0 64 ->
  w <> [] ->
  Forall (fun c => c <> 10 /\ c <> 13) w ->
  feed (w ++ [13]) g =
  Some (mk_system_state (current_state g) (echo_start_time g) (echo_end_time g)
          (measurement_alarm_id g)
          (if list_Z_eqb (c_string (firstn 63 w)) (codes "start") then true
           else if list_Z_eqb (c_string (firstn 63 w)) (codes "stop") then false
           else system_running g)
          (repeat 0 64) 0,
        map EPutchar (w ++ [13]) ++
        [if list_Z_eqb (c_string (firstn 63 w)) (codes "start") then EPrint "
Medições iniciadas.
"
         else if list_Z_eqb (c_string (firstn 63 w)) (codes "stop") then EPrint "
Medições paradas.
"
         else EPrint ("
Comando desconhecido: " ++ string_of_codes (c_string (firstn 63 w)) ++ "
")]).
Proof.
  intros Hi Hb Hne Hw.
  rewrite feed_app.
  rewrite (feed_chars w [] g Hw) by (simpl; auto; lia).
  change ([] ++ w) with w.
  assert (Hq : (1 <= List.length (firstn 63 w) <= 63)%nat).
  { rewrite length_firstn. destruct w; [congruence|]. simpl List.length. lia. }
  set (q := firstn 63 w) in *.
  replace (64 - List.length q)%nat with (S (63 - List.length q)) by lia.
  change (repeat 0 (S (63 - List.length q))) with (0 :: repeat 0 (63 - List.length q)).
  set (n := (63 - List.length q)%nat).
  simpl feed. unfold process_char. cbn [Z.eqb orb Pos.eqb].
  cbn [cmd_index set_cmd_index set_cmd_buffer cmd_buffer].
  destruct (Z.of_nat (List.length q) =? 0) eqn:E0; [lia|].
  rewrite store_in_bounds by (rewrite length_app; simpl List.length; lia).
  rewrite Nat2Z.id, list_set_app_repeat.
  unfold strcmp_eq. rewrite <- app_assoc. change ([0] ++ repeat 0 n) with (0 :: repeat 0 n).
  rewrite c_string_app_nul.
  destruct (list_Z_eqb (c_string q) (codes "start"));
  [|destruct (list_Z_eqb (c_string q) (codes "stop"))];
  simpl; rewrite map_app, <- app_assoc; destruct g; reflexivity.
Qed.

(** An empty line ends the iteration at once ([continue], line 144): only
    the echo happens; no pulse, no report and no 10 ms sleep, even when a
    result is waiting to be printed. *)
Theorem empty_line_skips_iteration (m : machine) (c h mi s : Z) (ls : list label) :
  pc m = PC_Top -> cmd_index (g_state m) = 0 -> (c = 13 \/ c = 10) ->
  run_iter m (LFg (Some c) h mi s :: ls) = Some (m, [EPutchar c]).
Proof.
  intros Hpc Hi Hc. destruct m as [g p pd nid]; simpl in Hpc, Hi. subst p.
  destruct Hc; subst; cbn; rewrite Hi; reflexivity.
Qed.

(** The alarm pool. *)

Lemma step_guard_inv (m : machine) (l : label) (m' : machine) (effs : list effect) :
  guard_inv m -> step m l = Some (m', effs) -> guard_inv m'.
Proof.
  intros Hinv H. destruct m as [g p pd nid]. unfold guard_inv in *; simpl in *.
  destruct l as [inp h mi s | gpio ev tr tf | id]; simpl in H.
  - unfold fg_step in H; destruct p; simpl in H.
    + destruct inp as [c|]; [| inversion H; subst; simpl; intro Hw; right;
        destruct (Hinv Hw); [discriminate | assumption]].
      destruct (process_char c g) as [[[g' e] k]|] eqn:Ep; simpl in H; [| discriminate].
      inversion H; subst; simpl.
      destruct (process_char_frame _ _ _ _ _ Ep) as [[run [buf [idx ->]]] _]; simpl.
      intro Hw; right; destruct (Hinv Hw); [discriminate | assumption].
    + destruct (system_running g && state_eqb (current_state g) STATE_IDLE);
        inversion H; subst; simpl; intro Hw; right;
        destruct (Hinv Hw); [discriminate | assumption | discriminate | assumption].
    + inversion H; subst; simpl. intros _; left; reflexivity.
    + inversion H; subst; simpl. intros _; right; left; reflexivity.
    + destruct (is_terminal (current_state g)); inversion H; subst; simpl;
        intro Hw; right; destruct (Hinv Hw); [discriminate | assumption | discriminate | assumption].
    + inversion H; subst; simpl; intro Hw; right; destruct (Hinv Hw); [discriminate | assumption].
    + inversion H; subst; simpl. intro Hw; discriminate.
    + inversion H; subst; simpl; intro Hw; right; destruct (Hinv Hw); [discriminate | assumption].
  - destruct g as [st s0 e0 aid run buf idx].
    unfold echo_callback in H; simpl in H.
    destruct (gpio =? ECHO_PIN); [| inversion H; subst; simpl; exact Hinv].
    destruct (Z.land ev GPIO_IRQ_EDGE_RISE =? 0);
      destruct (Z.land ev GPIO_IRQ_EDGE_FALL =? 0);
      state_cases st; inversion H; subst; simpl; try exact Hinv; intro Hw; discriminate.
  - destruct (existsb (fun x => x =? id) pd); inversion H; subst; simpl; [| exact Hinv].
    destruct g as [st s0 e0 aid run buf idx]; unfold timeout_callback; simpl.
    state_cases st.
Qed.

Lemma exec_guard_inv (ls : list label) (m m' : machine) (tr : list step_rec) :
  guard_inv m -> exec m ls = Some (m', tr) -> guard_inv m'.
Proof.
  revert m tr. induction ls as [| l ls IH]; intros m tr Hinv H; simpl in H.
  - inversion H; subst; exact Hinv.
  - destruct (step m l) as [[m1 e1]|] eqn:Es; [| discriminate].
    destruct (exec m1 ls) as [[m2 tr2]|] eqn:Ex; [| discriminate].
    inversion H; subst.
    exact (IH _ _ (step_guard_inv _ _ _ _ Hinv Es) Ex).
Qed.

(** In every run from the initial state, a measurement waiting for its
    echo (past the arming step) has its alarm pending, and the firing of
    that alarm ends the wait with [STATE_MEASUREMENT_ERROR]. *)
Theorem waiting_has_pending_alarm (ls : list label) (m' : machine) (tr : list step_rec) :
  exec machine_init ls = Some (m', tr) ->
  current_state (g_state m') = STATE_WAITING_FOR_ECHO ->
  pc m' <> PC_Arm ->
  In (measurement_alarm_id (g_state m')) (pending m') /\
  exists m'', step m' (LAlarm (measurement_alarm_id (g_state m'))) = Some (m'', []) /\
    current_state (g_state m'') = STATE_MEASUREMENT_ERROR /\ pc m'' = pc m'.
Proof.
  intros H Hw Hpc.
  assert (Hin : In (measurement_alarm_id (g_state m')) (pending m')).
  { destruct (exec_guard_inv ls machine_init m' tr) as [E | E];
      [unfold guard_inv; simpl; discriminate | exact H | exact Hw | contradiction | exact E]. }
  split; [exact Hin|].
  destruct m' as [g p pd nid]; simpl in *.
  replace (existsb (fun x => x =? measurement_alarm_id g) pd) with true.
  - eexists. split; [reflexivity|]. simpl. unfold timeout_callback. rewrite Hw. simpl.
    split; reflexivity.
  - symmetry. apply existsb_exists. exists (measurement_alarm_id g). split; [exact Hin|].
    apply Z.eqb_refl.
Qed.

(** Nothing is measured before [start]. *)

Lemma process_char_run (c : Z) (g g' : system_state_t) (effs : list effect) (k : bool) :
  process_char c g = Some (g', effs, k) ->
  system_running g = false -> system_running g' = true -> In started_msg effs.
Proof.
  intros H Hr Hr'. unfold process_char in H.
  destruct ((c =? 13) || (c =? 10)).
  - destruct (cmd_index g =? 0).
    + inversion H; subst. congruence.
    + destruct (store (cmd_buffer g) (cmd_index g) 0) as [b|]; [| discriminate].
      destruct (strcmp_eq b "start"); [| destruct (strcmp_eq b "stop")];
        inversion H; subst; simpl in *; try congruence.
      right; left; reflexivity.
  - destruct (cmd_index g <? CMD_BUFFER_SIZE - 1).
    + destruct (store (cmd_buffer g) (cmd_index g) c) as [b|]; [| discriminate].
      inversion H; subst. simpl in *. congruence.
    + inversion H; subst. congruence.
Qed.

Lemma step_not_started (m : machine) (l : label) (m' : machine) (effs : list effect) :
  not_started m -> step m l = Some (m', effs) -> ~ In started_msg effs ->
  not_started m' /\ Forall (fun e => starts_cycle e = false) effs.
Proof.
  intros [Hr [Hp1 Hp2]] H Hn. destruct m as [g p pd nid]. unfold not_started; simpl in *.
  destruct l as [inp h mi s | gpio ev tr tf | id]; simpl in H.
  - unfold fg_step in H; destruct p; simpl in H; try congruence.
    + destruct inp as [c|].
      * destruct (process_char c g) as [[[g' e] k]|] eqn:Ep; simpl in H; [| discriminate].
        inversion H; subst; simpl.
        destruct (system_running g') eqn:Er'.
        -- exfalso. exact (Hn (process_char_run _ _ _ _ _ Ep Hr Er')).
        -- split; [split; [reflexivity | destruct k; split; discriminate] |].
           exact (proj1 (proj2 (process_char_frame _ _ _ _ _ Ep))).
      * inversion H; subst; simpl. repeat split; try discriminate; auto.
    + rewrite Hr in H; simpl in H. inversion H; subst; simpl.
      repeat split; try discriminate; auto.
    + destruct (is_terminal (current_state g)); inversion H; subst; simpl;
        repeat split; try discriminate; auto.
    + inversion H; subst; simpl. repeat split; try discriminate; auto.
    + inversion H; subst; simpl. rewrite Hr.
      repeat split; try discriminate; auto.
    + inversion H; subst; simpl. repeat split; try discriminate; auto.
  - destruct g as [st s0 e0 aid run buf idx].
    unfold echo_callback in H; simpl in *.
    destruct (gpio =? ECHO_PIN); [| inversion H; subst; simpl; repeat split; auto].
    destruct (Z.land ev GPIO_IRQ_EDGE_RISE =? 0);
      destruct (Z.land ev GPIO_IRQ_EDGE_FALL =? 0);
      state_cases st; inversion H; subst; simpl; repeat split; auto.
  - destruct (existsb (fun x => x =? id) pd); inversion H; subst; simpl;
      [| repeat split; auto].
    destruct g as [st s0 e0 aid run buf idx]; unfold timeout_callback; simpl in *.
    state_cases st; repeat split; auto.
Qed.

Lemma exec_not_started (ls : list label) (m m' : machine) (tr : list step_rec) :
  not_started m -> exec m ls = Some (m', tr) ->
  (forall r, In r tr -> ~ In started_msg (r_effs r)) ->
  forall r, In r tr -> Forall (fun e => starts_cycle e = false) (r_effs r).
Proof.
  revert m tr. induction ls as [| l ls IH]; intros m tr Hns H Hn r Hr; simpl in H.
  - inversion H; subst; contradiction.
  - destruct (step m l) as [[m1 e1]|] eqn:Es; [| discriminate].
    destruct (exec m1 ls) as [[m2 tr2]|] eqn:Ex; [| discriminate].
    inversion H; subst.
    assert (Hn1 : ~ In started_msg e1) by (apply (Hn (mk_rec m l m1 e1)); left; reflexivity).
    destruct (step_not_started _ _ _ _ Hns Es Hn1) as [Hns1 Hf].
    destruct Hr as [<- | Hr]; [exact Hf |].
    apply (IH m1 tr2 Hns1 Ex); [| exact Hr].
    intros r' Hr'. apply Hn. right. exact Hr'.
Qed.

(** In a run from the initial state in which the [start] message has not
    been printed, no step sends a trigger pulse or arms an alarm. *)
Theorem no_measurement_before_start (ls : list label) (m' : machine) (tr : list step_rec) :
  exec machine_init ls = Some (m', tr) ->
  (forall r, In r tr -> ~ In started_msg (r_effs r)) ->
  forall r, In r tr -> Forall (fun e => starts_cycle e = false) (r_effs r).
Proof.
  intros H. apply (exec_not_started ls machine_init m' tr); [| exact H].
  repeat split; discriminate.
Qed.

(** The time stamp of the result line. *)

Lemma string_length_app (s1 s2 : string) :
  String.length (s1 ++ s2) = (String.length s1 + String.length s2)%nat.
Proof. induction s1; simpl; auto. Qed.

Lemma in_int8_range (n : Z) : -128 <= n <= 127 -> In n int8_range.
Proof.
  intros Hn. unfold int8_range. apply in_map_iff.
  exists (Z.to_nat (n + 128)). split; [lia | apply in_seq; lia].
Qed.

Lemma fmt02_length_int8 (n : Z) : -128 <= n <= 127 ->
  (String.length (fmt02 n) <= 4)%nat /\ (0 <= n <= 99 -> String.length (fmt02 n) = 2%nat).
Proof.
  intros Hn.
  assert (Hall : forallb (fun n => Nat.leb (String.length (fmt02 n)) 4 &&
                           (negb ((0 <=? n) && (n <=? 99)) ||
                            Nat.eqb (String.length (fmt02 n)) 2)) int8_range = true)
    by (vm_compute; reflexivity).
  rewrite forallb_forall in Hall. specialize (Hall n (in_int8_range n Hn)).
  apply andb_prop in Hall as [H1 H2]. split; [apply Nat.leb_le; exact H1 |].
  intros Hr. apply orb_prop in H2 as [H2 | H2].
  - replace ((0 <=? n) && (n <=? 99)) with true in H2 by (symmetry; apply andb_true_iff; lia).
    discriminate.
  - apply Nat.eqb_eq; exact H2.
Qed.

(** For any [int8_t] hour, minute and second, the [%02d:%02d:%02d] text
    with its terminating NUL fits the 16 bytes of [time_str] (line 184);
    for values from 0 to 99 it is exactly 8 characters. *)
Theorem time_str_fits_buffer (h mi s : Z) :
  -128 <= h <= 127 -> -128 <= mi <= 127 -> -128 <= s <= 127 ->
  (String.length (time_str h mi s) + 1 <= 16)%nat /\
  (0 <= h <= 99 -> 0 <= mi <= 99 -> 0 <= s <= 99 ->
   String.length (time_str h mi s) = 8%nat).
Proof.
  intros Hh Hm Hs. unfold time_str. rewrite !string_length_app. simpl.
  destruct (fmt02_length_int8 h Hh) as [Lh Eh].
  destruct (fmt02_length_int8 mi Hm) as [Lm Em].
  destruct (fmt02_length_int8 s Hs) as [Ls Es].
  split; [lia |]. intros Hh' Hm' Hs'. rewrite Eh, Em, Es by assumption. reflexivity.
Qed.

(** The sign of the printed distance. *)

Lemma rne_div_ge (a b : Z) : 0 <= a -> 0 < b -> a / b <= rne_div a b.
Proof.
  intros Ha Hb. unfold rne_div.
  destruct (b <? 2 * (a mod b)); [lia|].
  destruct (2 * (a mod b) <? b); [lia|].
  destruct (Z.odd (a / b)); lia.
Qed.

Lemma round_f32_sgn (x : f32) : Z.sgn (f_m (round_f32 x)) = Z.sgn (f_m x).
Proof.
  unfold round_f32.
  destruct (Z.abs (f_m x) <? 2 ^ 24) eqn:Ha; [reflexivity|].
  apply Z.ltb_ge in Ha. simpl.
  set (a := Z.abs (f_m x)) in *. set (k := Z.log2 a - 23).
  assert (Hk : 1 <= k).
  { unfold k. assert (24 <= Z.log2 a); [|lia].
    rewrite <- (Z.log2_pow2 24) by lia. apply Z.log2_le_mono. exact Ha. }
  assert (Hlog : 2 ^ k <= a).
  { apply Z.le_trans with (2 ^ (k + 23)).
    - apply Z.pow_le_mono_r; lia.
    - unfold k. replace (Z.log2 a - 23 + 23) with (Z.log2 a) by lia.
      apply Z.log2_spec. lia. }
  assert (H2k : 0 < 2 ^ k) by (apply Z.pow_pos_nonneg; lia).
  assert (Hr : 1 <= rne_div a (2 ^ k)).
  { apply Z.le_trans with (a / 2 ^ k); [| apply rne_div_ge; lia].
    apply Z.div_le_lower_bound; lia. }
  rewrite Z.sgn_mul, (Z.sgn_pos (rne_div a (2 ^ k))) by lia. lia.
Qed.

Lemma distance_f32_sgn (d : Z) : Z.sgn (f_m (distance_f32 d)) = Z.sgn d.
Proof.
  unfold distance_f32, f32_half, f32_mul, f32_of_int.
  rewrite round_f32_sgn. cbn [f_m]. rewrite round_f32_sgn. cbn [f_m].
  rewrite Z.sgn_mul, round_f32_sgn. cbn [f_m].
  assert (E : f_m SPEED_OF_SOUND_F32 = 9207336) by (vm_compute; reflexivity).
  rewrite E. simpl. lia.
Qed.

Lemma round_0f_nonneg (x : f32) : 0 <= f_m x -> 0 <= round_0f x.
Proof.
  intros Hm. unfold round_0f.
  destruct (0 <=? f_e x) eqn:He; [apply Z.leb_le in He | apply Z.leb_gt in He].
  - apply Z.mul_nonneg_nonneg; [apply Z.sgn_nonneg; exact Hm |].
    apply Z.mul_nonneg_nonneg; [lia | apply Z.pow_nonneg; lia].
  - assert (0 < 2 ^ (- f_e x)) by (apply Z.pow_pos_nonneg; lia).
    apply Z.mul_nonneg_nonneg; [apply Z.sgn_nonneg; exact Hm |].
    apply Z.le_trans with (Z.abs (f_m x) / 2 ^ (- f_e x));
      [apply Z.div_pos; lia | apply rne_div_ge; lia].
Qed.

(** The sign of [%.0f] of the distance follows the sign of the duration. *)
Lemma fmt_0f_distance_sign (d : Z) :
  (d < 0 -> fmt_0f (distance_f32 d) = ("-" ++ dec (Z.abs (round_0f (distance_f32 d))))%string) /\
  (0 <= d -> 0 <= round_0f (distance_f32 d) /\
             fmt_0f (distance_f32 d) = dec (round_0f (distance_f32 d))).
Proof.
  pose proof (distance_f32_sgn d) as Hs. unfold fmt_0f. split; intros Hd.
  - replace (f_m (distance_f32 d) <? 0) with true; [reflexivity|].
    symmetry. apply Z.ltb_lt. apply Z.sgn_neg_iff. rewrite Hs. apply Z.sgn_neg_iff. exact Hd.
  - assert (Hm : 0 <= f_m (distance_f32 d)).
    { destruct (Z.sgn d) eqn:E; destruct (f_m (distance_f32 d)); simpl in *; lia. }
    pose proof (round_0f_nonneg _ Hm) as Hr.
    replace (f_m (distance_f32 d) <? 0) with false by (symmetry; apply Z.ltb_ge; lia).
    split; [exact Hr|]. simpl. rewrite Z.abs_eq by exact Hr. reflexivity.
Qed.

(** The printed distance has a minus sign exactly when the duration is
    negative; for a non-negative duration it is the plain digits of the
    rounded value.  Stated for durations of at most [5 * 10 ^ 10] us in
    absolute value. *)
Theorem printed_distance_sign (d : Z) :
  Z.abs d <= 5 * 10 ^ 10 ->
  (d < 0 -> fmt_0f (distance_f32 d) = ("-" ++ dec (Z.abs (round_0f (distance_f32 d))))%string) /\
  (0 <= d -> 0 <= round_0f (distance_f32 d) /\
             fmt_0f (distance_f32 d) = dec (round_0f (distance_f32 d))).
Proof.
  intros _. exact (fmt_0f_distance_sign d).
Qed.

Lemma wrap_s64_small (x : Z) : - 2 ^ 63 <= x < 2 ^ 63 -> wrap_s64 x = x.
Proof.
  intros Hx. unfold wrap_s64.
  destruct (Z.le_gt_cases 0 x).
  - rewrite Z.mod_small by lia.
    rewrite Z.geb_leb. destruct (2 ^ 63 <=? x) eqn:E; [apply Z.leb_le in E; lia | reflexivity].
  - replace (x mod 2 ^ 64) with (x + 2 ^ 64).
    + rewrite Z.geb_leb. destruct (2 ^ 63 <=? x + 2 ^ 64) eqn:E; [lia | apply Z.leb_gt in E; lia].
    + symmetry. rewrite <- (Z.mod_small (x + 2 ^ 64) (2 ^ 64)) by lia.
      rewrite Z.add_mod, Z.mod_same, Z.add_0_r, Z.mod_mod by lia. reflexivity.
Qed.

(** A rising edge that arrives after [COMPLETE] and before the result is
    printed only replaces the start time stamp: the state, the other fields,
    the loop position and the alarm pool stay as they are and nothing is
    emitted.  The line then printed shows a negative distance, from the end
    time stamp minus the late edge's time (times in the [int64_t] range). *)
Theorem late_rise_negative_report (m : machine) (tr tf h mi s : Z) :
  current_state (g_state m) = STATE_MEASUREMENT_COMPLETE ->
  0 <= echo_end_time (g_state m) < tr -> tr < 2 ^ 63 ->
  step m (LEcho ECHO_PIN GPIO_IRQ_EDGE_RISE tr tf) =
    Some (mk_machine (set_echo_start_time tr (g_state m)) (pc m) (pending m) (next_alarm_id m),
          []) /\
  echo_start_time (set_echo_start_time tr (g_state m)) = tr /\
  report_line (set_echo_start_time tr (g_state m)) h mi s =
    ok_line h mi s ("-" ++ dec (Z.abs (round_0f
      (distance_f32 (echo_end_time (g_state m) - tr)))))%string.
Proof.
  intros Hc Ht Htr. destruct m as [g p pd nid]; simpl in *.
  split; [reflexivity |]. split; [reflexivity |].
  unfold report_line. simpl. rewrite Hc. simpl.
  unfold absolute_time_diff_us. rewrite wrap_s64_small by lia.
  f_equal. apply (proj1 (fmt_0f_distance_sign (echo_end_time g - tr))). lia.
Qed.

(** The interrupts of main.c during a measurement. *)

Lemma isr_run_after_fall (es : list MainC.isr_event) (s : MainC.sensor_state_t) :
  MainC.flag_f_trigger s = 0 -> MainC.action_completed s = true ->
  MainC.flag_f_trigger (fst (MainC.isr_run es s)) = 0 /\
  MainC.action_completed (fst (MainC.isr_run es s)) = true /\
  MainC.t_descida (fst (MainC.isr_run es s)) = MainC.t_descida s /\
  snd (MainC.isr_run es s) = [].
Proof.
  revert s. induction es as [| e es IH]; intros s Hf Hc; [simpl; auto|].
  simpl. destruct e as [gpio ev tr tf|].
  - unfold MainC.isr_step, MainC.trigger_callback.
    set (s1 := if (gpio =? MainC.ECHO_PIN) && (ev =? 8) then _ else s).
    assert (Hs1 : MainC.flag_f_trigger s1 = 0 /\ MainC.action_completed s1 = true /\
                  MainC.t_descida s1 = MainC.t_descida s).
    { unfold s1. destruct ((gpio =? MainC.ECHO_PIN) && (ev =? 8)); simpl; auto. }
    destruct Hs1 as [H1 [H2 H3]].
    rewrite H1, andb_false_r.
    destruct (IH s1 H1 H2) as [A [B [C D]]].
    destruct (MainC.isr_run es s1) as [s2 e2] eqn:E; simpl in *.
    rewrite <- H3. auto.
  - simpl. destruct (IH (MainC.alarm_callback s) Hf Hc) as [A [B [C D]]].
    destruct (MainC.isr_run es (MainC.alarm_callback s)) as [s2 e2]; simpl in *. auto.
Qed.

Lemma isr_run_app_fst (a b : list MainC.isr_event) (s : MainC.sensor_state_t) :
  fst (MainC.isr_run (a ++ b) s) = fst (MainC.isr_run b (fst (MainC.isr_run a s))).
Proof.
  revert s. induction a as [| e a IH]; intros s; [reflexivity |].
  simpl. destruct (MainC.isr_step e s) as [s1 e1].
  specialize (IH s1).
  destruct (MainC.isr_run (a ++ b) s1), (MainC.isr_run a s1); simpl in *. exact IH.
Qed.

(** After the accepted falling edge, only the alarm changes [timer_fired]. *)
Lemma isr_run_after_fall_fired (es : list MainC.isr_event) (s : MainC.sensor_state_t) :
  MainC.flag_f_trigger s = 0 -> MainC.action_completed s = true ->
  MainC.timer_fired (fst (MainC.isr_run es s)) =
    MainC.timer_fired s || existsb MainC.is_alarm es.
Proof.
  revert s. induction es as [| e es IH]; intros s Hf Hc; [simpl; rewrite orb_false_r; reflexivity |].
  simpl. destruct e as [gpio ev tr tf|].
  - unfold MainC.isr_step, MainC.trigger_callback.
    set (s1 := if (gpio =? MainC.ECHO_PIN) && (ev =? 8) then _ else s).
    assert (Hs1 : MainC.flag_f_trigger s1 = 0 /\ MainC.action_completed s1 = true /\
                  MainC.timer_fired s1 = MainC.timer_fired s).
    { unfold s1. destruct ((gpio =? MainC.ECHO_PIN) && (ev =? 8)); simpl; auto. }
    destruct Hs1 as [H1 [H2 H3]].
    rewrite H1, andb_false_r.
    pose proof (IH s1 H1 H2) as IH1.
    destruct (MainC.isr_run es s1) as [s2 e2]; simpl in *.
    rewrite IH1, H3. reflexivity.
  - simpl. pose proof (IH (MainC.alarm_callback s) Hf Hc) as IH1.
    destruct (MainC.isr_run es (MainC.alarm_callback s)) as [s2 e2]; simpl in *.
    rewrite IH1, orb_true_r. reflexivity.
Qed.

(** Before the accepted falling edge: [action_completed] tells whether it
    came, [t_descida] is its time, and [timer_fired] is set by an alarm after
    it (or by any alarm, if it has not come). *)
Lemma isr_run_before_fall (es : list MainC.isr_event) (s : MainC.sensor_state_t) :
  MainC.flag_f_trigger s <> 0 -> MainC.action_completed s = false ->
  MainC.action_completed (fst (MainC.isr_run es s)) =
    match MainC.first_fall es with Some _ => true | None => false end /\
  (forall tf, MainC.first_fall es = Some tf ->
     MainC.flag_f_trigger (fst (MainC.isr_run es s)) = 0 /\
     MainC.t_descida (fst (MainC.isr_run es s)) = tf) /\
  MainC.timer_fired (fst (MainC.isr_run es s)) =
    match MainC.after_first_fall es with
    | Some rest => existsb MainC.is_alarm rest
    | None => MainC.timer_fired s || existsb MainC.is_alarm es
    end.
Proof.
  revert s. induction es as [| e es IH]; intros s Hf Hc.
  - simpl. rewrite Hc, orb_false_r. split; [reflexivity |]. split; [discriminate | reflexivity].
  - destruct e as [gpio ev tr tf|].
    + simpl. unfold MainC.trigger_callback.
      destruct ((gpio =? MainC.ECHO_PIN) && (ev =? 4)) eqn:Efall.
      * apply andb_prop in Efall as [Eg Ee]. apply Z.eqb_eq in Ee. subst ev.
        rewrite Eg. simpl.
        replace (MainC.flag_f_trigger s =? 0) with false by (symmetry; apply Z.eqb_neq; exact Hf).
        simpl.
        set (s2 := MainC.mk_sensor _ _ false true tf _).
        destruct (isr_run_after_fall es s2 eq_refl eq_refl) as [A [B [C _]]].
        pose proof (isr_run_after_fall_fired es s2 eq_refl eq_refl) as D.
        destruct (MainC.isr_run es s2) as [s3 e3]; simpl in *.
        split; [exact B |]. split; [intros tf' Htf; inversion Htf; subst; auto | exact D].
      * set (s1 := if (gpio =? MainC.ECHO_PIN) && (ev =? 8) then _ else s).
        assert (Hs1 : MainC.flag_f_trigger s1 = MainC.flag_f_trigger s /\
                      MainC.action_completed s1 = false /\
                      MainC.timer_fired s1 = MainC.timer_fired s).
        { unfold s1. destruct ((gpio =? MainC.ECHO_PIN) && (ev =? 8)); simpl; auto. }
        destruct Hs1 as [H1 [H2 H3]].
        simpl.
        pose proof (IH s1 ltac:(congruence) H2) as IH1.
        destruct (MainC.isr_run es s1) as [s2 e2]; simpl in *.
        rewrite H3 in IH1. exact IH1.
    + simpl. pose proof (IH (MainC.alarm_callback s) Hf Hc) as [A [B C]].
      destruct (MainC.isr_run es (MainC.alarm_callback s)) as [s2 e2]; simpl in *.
      split; [exact A |]. split; [exact B |].
      rewrite C. destruct (MainC.after_first_fall es); simpl; rewrite ?orb_true_r; reflexivity.
Qed.

(** main.c: after a trigger, whatever interrupts run before and between the
    reads of lines 155-161, the line printed is a distance exactly when a
    falling edge ([events == 0x4] on the echo pin) was accepted before line
    155, and its end time is that edge's time; otherwise it is [Falha]
    exactly when, at the read of line 161, an alarm has fired with no
    accepted falling edge after it, and the third message otherwise. *)
Theorem main_outcome_after_trigger (s : MainC.sensor_state_t) (id : Z)
    (es1 es2 es3 : list MainC.isr_event) :
  MainC.report_outcome es1 es2 es3 (MainC.arm s id) =
    match MainC.first_fall es1 with
    | Some tf => MainC.ODistance
        (absolute_time_diff_us (MainC.t_subida (fst (MainC.isr_run (es1 ++ es2) (MainC.arm s id)))) tf)
    | None => if MainC.fired_last (es1 ++ es2) then MainC.OFalha else MainC.ONotDone
    end.
Proof.
  unfold MainC.report_outcome. rewrite <- isr_run_app_fst.
  destruct (isr_run_before_fall es1 (MainC.arm s id)) as [A1 [B1 _]];
    [simpl; lia | reflexivity |].
  rewrite A1. destruct (MainC.first_fall es1) as [tf |] eqn:E1.
  - destruct (B1 tf eq_refl) as [F1 T1].
    assert (C1 : MainC.action_completed (fst (MainC.isr_run es1 (MainC.arm s id))) = true)
      by (rewrite A1; reflexivity).
    destruct (isr_run_after_fall es2 _ F1 C1) as [F2 [C2 [T2 _]]].
    rewrite <- isr_run_app_fst in F2, C2, T2.
    destruct (isr_run_after_fall es3 _ F2 C2) as [_ [_ [T3 _]]].
    rewrite T3, T2, T1. reflexivity.
  - destruct (isr_run_before_fall (es1 ++ es2) (MainC.arm s id)) as [_ [_ C]];
      [simpl; lia | reflexivity |].
    rewrite C. unfold MainC.fired_last. destruct (MainC.after_first_fall (es1 ++ es2)); reflexivity.
Qed.

Lemma isr_run_cancel (es : list MainC.isr_event) (s : MainC.sensor_state_t) :
  MainC.flag_f_trigger s <> 0 -> MainC.action_completed s = false ->
  snd (MainC.isr_run es s) =
    if negb (MainC.timer_fired s) && MainC.fall_before_alarm es &&
       negb (MainC.alarm_id s =? 0)
    then [ECancelAlarm (MainC.alarm_id s)] else [].
Proof.
  revert s. induction es as [| e es IH]; intros s Hf Hc.
  - simpl. rewrite andb_false_r. reflexivity.
  - destruct e as [gpio ev tr tf|].
    + simpl. unfold MainC.trigger_callback.
      destruct ((gpio =? MainC.ECHO_PIN) && (ev =? 4)) eqn:Efall.
      * apply andb_prop in Efall as [Eg Ee]. apply Z.eqb_eq in Ee. subst ev.
        rewrite Eg. simpl.
        replace (MainC.flag_f_trigger s =? 0) with false by (symmetry; apply Z.eqb_neq; exact Hf).
        simpl.
        set (s2 := MainC.mk_sensor _ _ false true tf _).
        destruct (isr_run_after_fall es s2 eq_refl eq_refl) as [_ [_ [_ D]]].
        destruct (MainC.isr_run es s2) as [s3 e3]; simpl in *. subst e3.
        rewrite app_nil_r, andb_true_r. reflexivity.
      * set (s1 := if (gpio =? MainC.ECHO_PIN) && (ev =? 8) then _ else s).
        assert (Hs1 : MainC.flag_f_trigger s1 = MainC.flag_f_trigger s /\
                      MainC.action_completed s1 = false /\
                      MainC.timer_fired s1 = MainC.timer_fired s /\
                      MainC.alarm_id s1 = MainC.alarm_id s).
        { unfold s1. destruct ((gpio =? MainC.ECHO_PIN) && (ev =? 8)); simpl; auto. }
        destruct Hs1 as [H1 [H2 [H3 H4]]].
        simpl.
        pose proof (IH s1 ltac:(congruence) H2) as IH1.
        destruct (MainC.isr_run es s1) as [s2 e2]; simpl in *.
        rewrite IH1, H3, H4. reflexivity.
    + simpl. pose proof (IH (MainC.alarm_callback s) Hf Hc) as IH1.
      destruct (MainC.isr_run es (MainC.alarm_callback s)) as [s2 e2]; simpl in *.
      rewrite IH1. rewrite !andb_false_r. simpl. reflexivity.
Qed.

(** main.c: the callback cancels the alarm exactly once, when the first
    falling edge comes before the alarm and the alarm id is not 0, and
    never otherwise. *)
Theorem main_cancel_only_before_timeout (s : MainC.sensor_state_t) (id : Z)
    (es : list MainC.isr_event) :
  snd (MainC.isr_run es (MainC.arm s id)) =
    if MainC.fall_before_alarm es && negb (id =? 0) then [ECancelAlarm id] else [].
Proof.
  rewrite isr_run_cancel by (simpl; first [lia | reflexivity]). reflexivity.
Qed.

(** The command line of main.c. *)

Lemma main_feed_app (a b : list Z) (st : MainC.cmd_state) :
  MainC.feed (a ++ b) st =
  match MainC.feed a st with
  | None => None
  | Some (st1, e1) =>
      match MainC.feed b st1 with
      | None => None
      | Some (st2, e2) => Some (st2, e1 ++ e2)
      end
  end.
Proof.
  revert st. induction a as [| c a IH]; intros st; simpl.
  - destruct (MainC.feed b st) as [[? ?]|]; reflexivity.
  - destruct (MainC.process_char c st) as [[st' e]|]; [|reflexivity].
    rewrite IH. destruct (MainC.feed a st') as [[st1 e1]|]; [|reflexivity].
    destruct (MainC.feed b st1) as [[st2 e2]|]; [|reflexivity].
    now rewrite app_assoc.
Qed.

Lemma main_feed_chars (w p : list Z) (st : MainC.cmd_state) :
  Forall (fun c => c <> 10 /\ c <> 13) w ->
  (List.length p <= 19)%nat ->
  MainC.command st = p ++ repeat 0 (20 - List.length p) ->
  MainC.cmd_index st = Z.of_nat (List.length p) ->
  MainC.feed w st =
    Some (MainC.mk_cmd (MainC.reading_active st)
            (firstn 19 (p ++ w) ++ repeat 0 (20 - List.length (firstn 19 (p ++ w))))
            (Z.of_nat (List.length (firstn 19 (p ++ w)))), []).
Proof.
  revert p st. induction w as [| c w IH]; intros p st Hw Hp Hb Hi.
  - rewrite app_nil_r, firstn_all2 by lia. simpl.
    destruct st; simpl in *. subst. reflexivity.
  - inversion Hw as [| ? ? [H10 H13] Hw']; subst.
    simpl MainC.feed. unfold MainC.process_char.
    replace ((c =? 10) || (c =? 13)) with false
      by (symmetry; apply orb_false_iff; split; apply Z.eqb_neq; assumption).
    rewrite Hi.
    destruct (Z.of_nat (List.length p) <? 20 - 1) eqn:Hlt.
    + apply Z.ltb_lt in Hlt.
      rewrite store_in_bounds by (rewrite Hb, length_app, repeat_length; lia).
      rewrite Hb, Nat2Z.id.
      replace (20 - List.length p)%nat with (S (19 - List.length p)) by lia.
      change (repeat 0 (S (19 - List.length p))) with (0 :: repeat 0 (19 - List.length p)).
      rewrite list_set_app_repeat.
      rewrite (IH (p ++ [c])).
      * cbn [MainC.reading_active]. rewrite <- app_assoc. reflexivity.
      * exact Hw'.
      * rewrite length_app. simpl. lia.
      * cbn [MainC.command]. rewrite length_app.
        replace (20 - (List.length p + List.length [c]))%nat with (19 - List.length p)%nat
          by (change (List.length [c]) with 1%nat; lia).
        reflexivity.
      * cbn [MainC.cmd_index]. rewrite length_app, Nat2Z.inj_add. simpl. lia.
    + apply Z.ltb_ge in Hlt.
      rewrite (IH p st Hw' Hp Hb Hi).
      rewrite !firstn_full_app by lia. reflexivity.
Qed.

(** main.c: a line typed on an empty buffer and ended by a carriage return
    is compared on its first 19 characters up to the first NUL; [start] and
    [stop] set or clear [reading_active], anything else prints the usage
    message; nothing is echoed and the buffer ends empty. *)
Theorem main_command_line_effect (st : MainC.cmd_state) (w : list Z) :
  MainC.cmd_index st = 0 ->
  MainC.command st = repeat 0 20 ->
  w <> [] ->
  Forall (fun c => c <> 10 /\ c <> 13) w ->
  MainC.feed (w ++ [13]) st =
  Some (MainC.mk_cmd
          (if list_Z_eqb (c_string (firstn 19 w)) (codes "start") then true
           else if list_Z_eqb (c_string (firstn 19 w)) (codes "stop") then false
           else MainC.reading_active st)
          (repeat 0 20) 0,
        [if list_Z_eqb (c_string (firstn 19 w)) (codes "start") then EPrint "Leitura iniciada!
"
         else if list_Z_eqb (c_string (firstn 19 w)) (codes "stop") then EPrint "Leitura parada!
"
         else EPrint "Comando desconhecido. Use 'start' ou 'stop'.
"]).
Proof.
  intros Hi Hb Hne Hw.
  rewrite main_feed_app.
  rewrite (main_feed_chars w [] st Hw) by (simpl; auto; lia).
  change ([] ++ w) with w.
  assert (Hq : (1 <= List.length (firstn 19 w) <= 19)%nat).
  { rewrite length_firstn. destruct w; [congruence|]. simpl List.length. lia. }
  set (q := firstn 19 w) in *.
  replace (20 - List.length q)%nat with (S (19 - List.length q)) by lia.
  change (repeat 0 (S (19 - List.length q))) with (0 :: repeat 0 (19 - List.length q)).
  set (n := (19 - List.length q)%nat).
  simpl MainC.feed. unfold MainC.process_char. cbn [Z.eqb orb Pos.eqb].
  cbn [MainC.cmd_index MainC.command MainC.reading_active].
  destruct (Z.of_nat (List.length q) >? 0) eqn:E0; [| rewrite Z.gtb_ltb in E0; apply Z.ltb_ge in E0; lia].
  rewrite store_in_bounds by (rewrite length_app; simpl List.length; lia).
  rewrite Nat2Z.id, list_set_app_repeat.
  unfold strcmp_eq. rewrite <- app_assoc. change ([0] ++ repeat 0 n) with (0 :: repeat 0 n).
  rewrite c_string_app_nul.
  destruct (list_Z_eqb (c_string q) (codes "start"));
  [|destruct (list_Z_eqb (c_string q) (codes "stop"))]; reflexivity.
Qed.

(** ** Witnesses of the further properties *)

Lemma command_line_effect_witness :
  feed (codes "start" ++ [13]) g_state_init =
  Some (set_system_running true g_state_init,
        map EPutchar (codes "start" ++ [13]) ++ [started_msg]).
Proof.
  rewrite (command_line_effect g_state_init (codes "start")); [reflexivity | reflexivity | reflexivity | discriminate |].
  change (codes "start") with [115; 116; 97; 114; 116].
  repeat (apply Forall_cons; [split; discriminate |]). apply Forall_nil.
Defined.

Lemma empty_line_skips_iteration_witness :
  run_iter (m_at PC_Top STATE_MEASUREMENT_COMPLETE) [LFg (Some 13) 10 0 0; F0] =
  Some (m_at PC_Top STATE_MEASUREMENT_COMPLETE, [EPutchar 13]).
Proof.
  apply empty_line_skips_iteration; [reflexivity | reflexivity | left; reflexivity].
Defined.

Lemma waiting_has_pending_alarm_witness :
  exists m' tr, exec machine_init start_then_wait = Some (m', tr) /\
    current_state (g_state m') = STATE_WAITING_FOR_ECHO /\ pc m' <> PC_Arm /\
    In (measurement_alarm_id (g_state m')) (pending m').
Proof.
  destruct (exec machine_init start_then_wait) as [[m' tr] |] eqn:E;
    [| vm_compute in E; discriminate].
  assert (Hw : current_state (g_state m') = STATE_WAITING_FOR_ECHO)
    by (vm_compute in E; inversion E; reflexivity).
  assert (Hp : pc m' <> PC_Arm) by (vm_compute in E; inversion E; discriminate).
  exists m', tr. split; [reflexivity|]. split; [exact Hw|]. split; [exact Hp|].
  exact (proj1 (waiting_has_pending_alarm start_then_wait m' tr E Hw Hp)).
Defined.

Lemma no_measurement_before_start_witness :
  exists m' tr, exec machine_init [F0; F0; F0; F0] = Some (m', tr) /\
    forall r, In r tr -> Forall (fun e => starts_cycle e = false) (r_effs r).
Proof.
  destruct (exec machine_init [F0; F0; F0; F0]) as [[m' tr] |] eqn:E;
    [| vm_compute in E; discriminate].
  exists m', tr. split; [reflexivity|].
  apply (no_measurement_before_start [F0; F0; F0; F0] m' tr E).
  vm_compute in E. inversion E; subst. simpl.
  intros r Hr. repeat (destruct Hr as [Hr | Hr]; [subst r; simpl; intuition discriminate |]).
  destruct Hr.
Defined.

Lemma time_str_fits_buffer_witness :
  (String.length (time_str 10 0 0) + 1 <= 16)%nat /\ String.length (time_str 10 0 0) = 8%nat.
Proof.
  assert (H : -128 <= 10 <= 127 /\ -128 <= 0 <= 127 /\ 0 <= 10 <= 99 /\ 0 <= 0 <= 99) by lia.
  destruct H as [H1 [H2 [H3 H4]]].
  pose proof (time_str_fits_buffer 10 0 0 H1 H2 H2) as [A B].
  split; [exact A | exact (B H3 H4 H4)].
Defined.

Lemma printed_distance_sign_witness :
  fmt_0f (distance_f32 (-600)) = ("-" ++ dec (Z.abs (round_0f (distance_f32 (-600)))))%string.
Proof.
  apply (proj1 (printed_distance_sign (-600) ltac:(vm_compute; discriminate))). lia.
Defined.

Lemma late_rise_negative_report_witness :
  step (mk_machine g_complete_600 PC_Report [] 1) (LEcho ECHO_PIN GPIO_IRQ_EDGE_RISE 800 800) =
    Some (mk_machine (set_echo_start_time 800 g_complete_600) PC_Report [] 1, []) /\
  report_line (set_echo_start_time 800 g_complete_600) 10 0 0 =
    ok_line 10 0 0 ("-" ++ dec (Z.abs (round_0f (distance_f32 (700 - 800)))))%string.
Proof.
  destruct (late_rise_negative_report (mk_machine g_complete_600 PC_Report [] 1) 800 800 10 0 0)
    as [A [_ B]]; [reflexivity | simpl; lia | lia |].
  split; [exact A | exact B].
Defined.

Lemma main_command_line_effect_witness :
  MainC.feed (codes "stop" ++ [13]) (MainC.mk_cmd true (repeat 0 20) 0) =
  Some (MainC.mk_cmd false (repeat 0 20) 0, [EPrint "Leitura parada!
"]).
Proof.
  rewrite (main_command_line_effect (MainC.mk_cmd true (repeat 0 20) 0) (codes "stop"));
    [reflexivity | reflexivity | reflexivity | discriminate |].
  change (codes "stop") with [115; 116; 111; 112].
  repeat (apply Forall_cons; [split; discriminate |]). apply Forall_nil.
Defined.
